(** * Reader and table-of-contents scripts: a shallow embedding

    The two page scripts [src/js/reader.js] and [src/js/act1-reader.js]
    are embedded as Rocq functions over an explicit model of the part of
    the browser they touch: the attributes of the page elements they read
    and write, the local key/value store (which may refuse a read or a
    write by raising), the viewport metrics and the animation-frame queue.

    Modelling conventions.
    - A JavaScript number is a double.  [JsNum] holds [NaN], the two
      infinities, or the exact value of a finite double as a rational;
      every arithmetic operation and every parse rounds its exact result
      to the nearest double ([Num.round_double]), and [Num.to_string]
      prints a double the way [Number::toString] does.  The sign of a
      zero is not kept.
    - A number that holds an integer (a chapter ordinal, a card index) is
      a [Z], and an integer result is rounded to a double
      ([Num.round_int]).  The integers from [-2^53] to [2^53] are all
      doubles, and print as their decimal numerals.
    - A string is the sequence of its bytes in UTF-8.
    - A value that may be [null] is an [option].
    - Code that may raise returns a [Completion]. *)

From Stdlib Require Import ZArith QArith Qround Qminmax String Ascii List Bool Lia.
From Stdlib Require Import DecimalString DecimalZ Lqa.
From stdpp Require Import base option gmap strings.
Import ListNotations.

Local Open Scope string_scope.
Local Open Scope Z_scope.

(** ** JavaScript values *)

Module Js.

(** Completion of a statement list: normal, or an exception that
    propagates to the caller. *)
Inductive Completion (A : Type) : Type :=
| Normal (a : A)
| Throw (e : string).
Arguments Normal {A} a.
Arguments Throw {A} e.

#[global] Instance completion_ret : MRet Completion := fun _ a => Normal a.

#[global] Instance completion_bind : MBind Completion := fun _ _ k c =>
  match c with
  | Normal a => k a
  | Throw e => Throw e
  end.

(** [try { c } catch (e) { }] around a state transformer: on an exception
    the state stays as it was when the block was entered. *)
Definition try_ignore {S} (c : S -> Completion S) (s : S) : S :=
  match c s with
  | Normal s' => s'
  | Throw _ => s
  end.

(** The decimal numeral of an integer. *)
Definition string_of_Z (n : Z) : string := NilZero.string_of_int (Z.to_int n).

Inductive JsNum : Type :=
| NaN
| NegInf
| Fin (q : Q)
| PosInf.

End Js.

Import Js.

(** ** Numbers: rounding, parsing, printing, arithmetic *)

Module Num.

Definition of_Z (n : Z) : JsNum := Fin (inject_Z n).

(** *** Rounding to a double *)

Definition inf_of_sign (s : Z) : JsNum :=
  if s <? 0 then NegInf else if 0 <? s then PosInf else NaN.

(** [m * 2^e] and [m * 10^e] as rationals. *)
Definition scale2 (m e : Z) : Q :=
  if 0 <=? e then inject_Z (m * 2 ^ e)
  else Qmake m (Z.to_pos (2 ^ (- e))).

Definition scale10 (m e : Z) : Q :=
  if 0 <=? e then inject_Z (m * 10 ^ e)
  else Qmake m (Z.to_pos (10 ^ (- e))).

(** The integer part of the binary logarithm of [n / d], for [0 < n]. *)
Definition floor_log2 (n : Z) (d : positive) : Z :=
  let l := Z.log2 n - Z.log2 (Z.pos d) in
  let below := if 0 <=? l then n <? 2 ^ l * Z.pos d else n * 2 ^ (- l) <? Z.pos d in
  if below then l - 1 else l.

(** The double nearest to a rational (IEEE 754 binary64, round to
    nearest, ties to the even significand).  [exponent] is the power of
    two of the last bit kept: 52 below the leading bit, and not below
    [-1074].  [significand] is the multiple of it nearest to the
    rational, at most [2^53].  From [2^1024] on the result is an
    infinity.  The sign of a zero is not kept. *)
Definition exponent (q : Q) : Z :=
  Z.max (floor_log2 (Z.abs (Qnum q)) (Qden q) - 52) (-1074).

Definition significand (q : Q) : Z :=
  let a := Z.abs (Qnum q) in
  let ex := exponent q in
  let tn := if 0 <=? ex then a else a * 2 ^ (- ex) in
  let td := if 0 <=? ex then Z.pos (Qden q) * 2 ^ ex else Z.pos (Qden q) in
  let m := tn / td in
  match 2 * (tn mod td) ?= td with
  | Lt => m
  | Gt => m + 1
  | Eq => if Z.even m then m else m + 1
  end.

Definition round_double (q : Q) : JsNum :=
  if Qnum q =? 0 then Fin 0
  else
    let m := significand q in
    let carry := if m =? 2 ^ 53 then 1 else 0 in
    if 971 <? exponent q + carry then inf_of_sign (Z.sgn (Qnum q))
    else Fin (Qred (scale2 (Z.sgn (Qnum q) * m) (exponent q))).

(** The integer a double holds after an integer result is rounded.  A
    result beyond the largest double is an infinity: the arithmetic of
    the scripts on a double does not get there, a numeral of more than
    308 digits does, and the model leaves such an integer as it is.  The
    statements about chapter indices are about integers of at most
    [2^53] in absolute value. *)
Definition round_int (z : Z) : Z :=
  match round_double (inject_Z z) with
  | Fin q => Qfloor q
  | _ => z
  end.

(** *** White space *)

Definition byte (c : ascii) : Z := Z.of_nat (nat_of_ascii c).

(** The white space and line terminators of ASCII. *)
Definition is_white (c : ascii) : bool :=
  let n := Z.of_nat (nat_of_ascii c) in
  ((9 <=? n) && (n <=? 13)) || (n =? 32).

(** Those beyond ASCII, in UTF-8: U+00A0; U+1680, U+2000 to U+200A,
    U+2028, U+2029, U+202F, U+205F, U+3000 and U+FEFF. *)
Definition is_white2 (c1 c2 : ascii) : bool :=
  (byte c1 =? 194) && (byte c2 =? 160).

Definition is_white3 (c1 c2 c3 : ascii) : bool :=
  ((byte c1 =? 225) && (byte c2 =? 154) && (byte c3 =? 128)) ||
  ((byte c1 =? 226) && (byte c2 =? 128) &&
     (((128 <=? byte c3) && (byte c3 <=? 138)) ||
      (byte c3 =? 168) || (byte c3 =? 169) || (byte c3 =? 175))) ||
  ((byte c1 =? 226) && (byte c2 =? 129) && (byte c3 =? 159)) ||
  ((byte c1 =? 227) && (byte c2 =? 128) && (byte c3 =? 128)) ||
  ((byte c1 =? 239) && (byte c2 =? 187) && (byte c3 =? 191)).

(** The string without its leading white space. *)
Fixpoint skip_white (s : string) : string :=
  match s with
  | String c1 s1 =>
      if is_white c1 then skip_white s1
      else
        match s1 with
        | String c2 s2 =>
            if is_white2 c1 c2 then skip_white s2
            else
              match s2 with
              | String c3 s3 => if is_white3 c1 c2 c3 then skip_white s3 else s
              | EmptyString => s
              end
        | EmptyString => s
        end
  | EmptyString => s
  end.

(** *** Parsing *)

Definition digit_val (c : ascii) : option Z :=
  let n := Z.of_nat (nat_of_ascii c) in
  if (48 <=? n) && (n <=? 57) then Some (n - 48) else None.

(** Reads the longest run of decimal digits at the head of [s]: its
    value on top of [acc], the number of digits read, and the rest. *)
Fixpoint read_digits (s : string) (acc : Z) (count : nat) : Z * nat * string :=
  match s with
  | String c s' =>
      match digit_val c with
      | Some d => read_digits s' (10 * acc + d) (S count)
      | None => (acc, count, s)
      end
  | EmptyString => (acc, count, s)
  end.

(** An optional sign: [-1] after a minus, [1] otherwise. *)
Definition read_sign (s : string) : Z * string :=
  match s with
  | String "-" s' => (-1, s')
  | String "+" s' => (1, s')
  | _ => (1, s)
  end.

(** [parseInt(s, 10)]; [None] is [NaN].  The integer read is rounded to
    the nearest double, as the engines in use do (the standard leaves an
    approximation open beyond 20 significant digits). *)
Definition parseInt (s : string) : option Z :=
  let '(sign, s1) := read_sign (skip_white s) in
  let '(v, count, _) := read_digits s1 0 0 in
  match count with
  | O => None
  | S _ => Some (round_int (sign * v))
  end.

(** An optional exponent part [e], [e+] or [e-] followed by digits; it is
    read only when at least one digit follows. *)
Definition read_exponent (s : string) : Z :=
  match s with
  | String c s' =>
      if (Ascii.eqb c "e" || Ascii.eqb c "E")%bool then
        let '(sign, s1) := read_sign s' in
        let '(v, count, _) := read_digits s1 0 0 in
        match count with
        | O => 0
        | S _ => sign * v
        end
      else 0
  | EmptyString => 0
  end.

(** [parseFloat(s)]: the longest prefix of the trimmed string that is a
    decimal literal, rounded to the nearest double (again as the engines
    do beyond 20 significant digits). *)
Definition parseFloat (s : string) : JsNum :=
  let '(sign, s1) := read_sign (skip_white s) in
  if String.prefix "Infinity" s1 then (if sign <? 0 then NegInf else PosInf)
  else
    let '(ip, icount, s2) := read_digits s1 0 0 in
    let '(m, fcount, s3) :=
      match s2 with
      | String "." s2' =>
          read_digits s2' ip 0
      | _ => (ip, O, s2)
      end in
    match icount, fcount with
    | O, O => NaN
    | _, _ => round_double (scale10 (sign * m) (read_exponent s3 - Z.of_nat fcount))
    end.

(** *** Printing *)

(** The integer part of the decimal logarithm of a positive rational. *)
Definition floor_log10 (x : Q) : Z :=
  let c := (floor_log2 (Qnum x) (Qden x) * 30103) / 100000 in
  if Qle_bool (scale10 1 (c + 2)) x then c + 2
  else if Qle_bool (scale10 1 (c + 1)) x then c + 1
  else if Qle_bool (scale10 1 c) x then c
  else c - 1.

Definition same_double (a : JsNum) (x : Q) : bool :=
  match a with
  | Fin q => Qeq_bool q x
  | _ => false
  end.

(** The digits [s] and the exponent [p] of the shortest decimal
    [s * 10^p] that reads back as the double [x], of [k] digits or more:
    of the two decimals of [k] digits around [x], the nearer one that
    reads back as [x] (the even one when they are as near); with 17
    digits a double always reads back. *)
Fixpoint shortest (fuel : nat) (k : Z) (e10 : Z) (x : Q) : Z * Z :=
  let p := e10 + 1 - k in
  let lo := Qfloor (x / scale10 1 p) in
  let hi := lo + 1 in
  let ok_lo := same_double (round_double (scale10 lo p)) x in
  let ok_hi := same_double (round_double (scale10 hi p)) x in
  let pick_lo :=
    match Qcompare (x - scale10 lo p) (scale10 hi p - x) with
    | Lt => true
    | Gt => false
    | Eq => Z.even lo
    end in
  match fuel with
  | O => (if pick_lo then lo else hi, p)
  | S fuel' =>
      if ok_lo && (negb ok_hi || pick_lo) then (lo, p)
      else if ok_hi then (hi, p)
      else shortest fuel' (k + 1) e10 x
  end.

(** Trailing zeros of the digits go to the exponent. *)
Fixpoint strip_zeros (fuel : nat) (s p : Z) : Z * Z :=
  match fuel with
  | O => (s, p)
  | S fuel' =>
      if (s mod 10 =? 0) && negb (s =? 0) then strip_zeros fuel' (s / 10) (p + 1)
      else (s, p)
  end.

Fixpoint zeros (n : nat) : string :=
  match n with
  | O => ""
  | S n' => String "0" (zeros n')
  end.

Fixpoint take (n : nat) (s : string) : string :=
  match n, s with
  | S n', String c s' => String c (take n' s')
  | _, _ => ""
  end.

Fixpoint drop (n : nat) (s : string) : string :=
  match n, s with
  | S n', String _ s' => drop n' s'
  | _, _ => s
  end.

(** The notation of [Number::toString] for the digits [s] (there are
    [k] of them) and the exponent [p]: with [n = k + p], an integer up to
    21 digits in full, a fraction with the point inside or after up to
    five zeros, exponent notation otherwise. *)
Definition format_digits (s p : Z) : string :=
  let digits := string_of_Z s in
  let k := Z.of_nat (String.length digits) in
  let n := k + p in
  if (k <=? n) && (n <=? 21) then digits ++ zeros (Z.to_nat (n - k))
  else if (0 <? n) && (n <=? 21) then
    take (Z.to_nat n) digits ++ "." ++ drop (Z.to_nat n) digits
  else if (-6 <? n) && (n <=? 0) then "0." ++ zeros (Z.to_nat (- n)) ++ digits
  else
    let e := n - 1 in
    let mant := if k =? 1 then digits else take 1 digits ++ "." ++ drop 1 digits in
    mant ++ "e" ++ (if e <? 0 then "-" else "+") ++ string_of_Z (Z.abs e).

(** A positive double.  An integer up to [2^53] prints as its decimal
    numeral: the integers next to it are doubles too, so no shorter
    decimal reads back as it. *)
Definition to_string_pos (x : Q) : string :=
  if (Z.pos (Qden x) =? 1) && (Qnum x <=? 2 ^ 53) then string_of_Z (Qnum x)
  else
    let '(s, p) := shortest 17 1 (floor_log10 x) x in
    let '(s, p) := strip_zeros 400 s p in
    format_digits s p.

(** [String(x)] and [`${x}`], for [x] a double. *)
Definition to_string (x : JsNum) : string :=
  match x with
  | NaN => "NaN"
  | PosInf => "Infinity"
  | NegInf => "-Infinity"
  | Fin q =>
      let q := Qred q in
      if Qnum q =? 0 then "0"
      else if Qnum q <? 0 then "-" ++ to_string_pos (Qopp q)
      else to_string_pos q
  end.

(** *** Arithmetic on doubles: the exact result rounded to a double,
    IEEE 754 on [NaN] and the infinities; a zero divisor is taken as
    [+0]. *)

Definition Qltb (x y : Q) : bool := negb (Qle_bool y x).

Definition isNaN (a : JsNum) : bool :=
  match a with NaN => true | _ => false end.

(** [-1], [0] or [1] for a number other than [NaN]. *)
Definition sign (a : JsNum) : Z :=
  match a with
  | NaN => 0
  | NegInf => -1
  | PosInf => 1
  | Fin q => Z.sgn (Qnum q)
  end.

Definition lt (a b : JsNum) : bool :=
  match a, b with
  | NaN, _ | _, NaN => false
  | Fin x, Fin y => Qltb x y
  | NegInf, NegInf | PosInf, _ | _, NegInf => false
  | NegInf, _ | _, PosInf => true
  end.

Definition gt (a b : JsNum) : bool := lt b a.

Definition sub (a b : JsNum) : JsNum :=
  match a, b with
  | NaN, _ | _, NaN => NaN
  | Fin x, Fin y => round_double (x - y)
  | PosInf, PosInf | NegInf, NegInf => NaN
  | PosInf, _ | _, NegInf => PosInf
  | NegInf, _ | _, PosInf => NegInf
  end.

Definition mul (a b : JsNum) : JsNum :=
  match a, b with
  | NaN, _ | _, NaN => NaN
  | Fin x, Fin y => round_double (x * y)
  | _, _ => inf_of_sign (sign a * sign b)
  end.

Definition div (a b : JsNum) : JsNum :=
  match a, b with
  | NaN, _ | _, NaN => NaN
  | Fin x, Fin y =>
      if Qeq_bool y 0 then inf_of_sign (sign a) else round_double (x / y)
  | Fin _, _ => Fin 0
  | _, Fin _ => inf_of_sign (sign a * (if sign b <? 0 then -1 else 1))
  | _, _ => NaN
  end.

Definition Math_min (a b : JsNum) : JsNum :=
  match a, b with
  | NaN, _ | _, NaN => NaN
  | _, _ => if lt b a then b else a
  end.

Definition Math_max (a b : JsNum) : JsNum :=
  match a, b with
  | NaN, _ | _, NaN => NaN
  | _, _ => if lt a b then b else a
  end.

Definition Math_floor (a : JsNum) : JsNum :=
  match a with
  | Fin q => Fin (inject_Z (Qfloor q))
  | _ => a
  end.

(** [Math.round]: to the nearest integer, a half upwards. *)
Definition Math_round (a : JsNum) : JsNum :=
  match a with
  | Fin q => Fin (inject_Z (Qfloor (q + (1 # 2))))
  | _ => a
  end.

End Num.

(** ** Navigation targets ([reader.js], lines 15-27) *)

Record NavLinks := { prevNum : option Z; nextNum : option Z }.

(** [number > 1] and the truthiness of [number], for a chapter index that
    is an integer or [null]: [null > 1] is false and [null] is falsy. *)
Definition gt1 (number : option Z) : bool :=
  match number with
  | Some n => 1 <? n
  | None => false
  end.

Definition truthy (number : option Z) : bool :=
  match number with
  | Some n => negb (n =? 0)
  | None => false
  end.

(** The [number] of the branches taken: a number there, since [null] is
    neither greater than 1 nor truthy.  The difference and the sum are
    those of doubles. *)
Definition buildNavLinks (number : option Z) : NavLinks :=
  {| prevNum := if gt1 number then (fun n => Num.round_int (n - 1)) <$> number else None;
     nextNum := if truthy number then (fun n => Num.round_int (n + 1)) <$> number else None |}.

Definition toc_path : string := "../line1-patreonreader.html".

Definition pathForIndex (num : option Z) : string :=
  if negb (truthy num) then toc_path
  else match num with
       | Some 1 => "patreonchapter-1.html"
       | Some n => "patreonchapter-" ++ Num.to_string (Num.of_Z n) ++ ".html"
       | None => toc_path
       end.

(** *** The same two functions on any argument

    The two functions are plain JavaScript, and JavaScript lets a caller
    pass anything.  [Dyn] follows them operator by operator on the values
    on which the operators differ: [undefined], [null], a Number holding
    an integer, a BigInt and a Symbol.  A comparison with a Symbol, an
    arithmetic operation that mixes a BigInt or a Symbol with a Number,
    and a template literal with a Symbol raise [TypeError].  Strings,
    booleans, objects, [NaN] and the infinities are left out. *)
Module Dyn.

Inductive Value :=
| VUndefined
| VNull
| VNumber (n : Z)
| VBigInt (n : Z)
| VSymbol.

(** [!v] is false. *)
Definition truthy (v : Value) : bool :=
  match v with
  | VUndefined | VNull => false
  | VNumber n | VBigInt n => negb (n =? 0)
  | VSymbol => true
  end.

(** [number > 1 ? number - 1 : null] *)
Definition prevNum (number : Value) : Completion (option Z) :=
  match number with
  | VUndefined | VNull => Normal None
  | VNumber n => Normal (if 1 <? n then Some (Num.round_int (n - 1)) else None)
  | VBigInt n => if 1 <? n then Throw "TypeError" else Normal None
  | VSymbol => Throw "TypeError"
  end.

(** [number ? number + 1 : null] *)
Definition nextNum (number : Value) : Completion (option Z) :=
  match number with
  | VUndefined | VNull => Normal None
  | VNumber n => Normal (if n =? 0 then None else Some (Num.round_int (n + 1)))
  | VBigInt n => if n =? 0 then Normal None else Throw "TypeError"
  | VSymbol => Throw "TypeError"
  end.

Definition buildNavLinks (number : Value) : Completion NavLinks :=
  p ← prevNum number;
  n ← nextNum number;
  Normal (Build_NavLinks p n).

(** [`patreonchapter-${num}.html`] *)
Definition template (num : Value) : Completion string :=
  match num with
  | VUndefined => Normal "patreonchapter-undefined.html"
  | VNull => Normal "patreonchapter-null.html"
  | VNumber n => Normal ("patreonchapter-" ++ Num.to_string (Num.of_Z n) ++ ".html")
  | VBigInt n => Normal ("patreonchapter-" ++ string_of_Z n ++ ".html")
  | VSymbol => Throw "TypeError"
  end.

Definition pathForIndex (num : Value) : Completion string :=
  if negb (truthy num) then Normal toc_path
  else
    match num with
    | VNumber 1 => Normal "patreonchapter-1.html"
    | _ => template num
    end.

End Dyn.

(** ** Synthesised navigation bars ([reader.js], [injectNav], lines 61-114) *)

Record Anchor := {
  href : string;
  textContent : string;
  data_role : option string;
  anchor_aria_label : option string
}.

Inductive Position := Top | Bottom.

(** [prevNum !== null && prevNum !== undefined && prevNum > 0] *)
Definition prev_guard (p : option Z) : bool :=
  match p with
  | Some n => 0 <? n
  | None => false
  end.

Definition prevAnchor (links : NavLinks) : Anchor :=
  if prev_guard (prevNum links) then
    {| href := pathForIndex (prevNum links); textContent := "Previous";
       data_role := Some "prev"; anchor_aria_label := None |}
  else
    {| href := toc_path; textContent := "Table of Contents";
       data_role := None; anchor_aria_label := None |}.

Definition tocAnchor : Anchor :=
  {| href := toc_path; textContent := "Table of Contents";
     data_role := None;
     anchor_aria_label := Some "Back to Act I table of contents" |}.

Definition nextAnchor (links : NavLinks) : Anchor :=
  if truthy (nextNum links) then
    {| href := pathForIndex (nextNum links); textContent := "Next";
       data_role := Some "next"; anchor_aria_label := None |}
  else
    {| href := toc_path; textContent := "End of Act";
       data_role := None; anchor_aria_label := None |}.

(** A navigation bar: its class list, its anchors in document order, and,
    for a hand-written collapsible bar, the [aria-expanded] attribute of
    its [.chapter-nav-toggle] button and the class list of its links
    container.  The order of the tokens of a class list is not modelled. *)
Record NavEl := {
  classList : gset string;
  nav_aria_label : option string;
  anchors : list Anchor;
  toggle : option (option string);
  links : option (gset string)
}.

Definition position_class (position : Position) : string :=
  match position with
  | Top => "chapter-top-nav"
  | Bottom => "chapter-nav"
  end.

(** The element [injectNav] builds before it inserts it. *)
Definition buildNav (position : Position) (chapterIndex : option Z) : NavEl :=
  let links_ := buildNavLinks chapterIndex in
  {| classList := {[ position_class position ]};
     nav_aria_label := Some (match position with
                             | Top => "Chapter top navigation"
                             | Bottom => "Chapter navigation"
                             end);
     anchors := [prevAnchor links_; tocAnchor; nextAnchor links_];
     toggle := None;
     links := None |}.

(** The navigation bars of the page, in document order, before and after
    the article. *)
Record Page := { navs_before : list NavEl; navs_after : list NavEl }.

Definition has_class (c : string) (n : NavEl) : bool :=
  bool_decide (c ∈ classList n).

(** [qs(sel)] for a class selector, over the navigation bars. *)
Definition qs_nav (c : string) (p : Page) : option NavEl :=
  List.find (has_class c) (navs_before p ++ navs_after p).

Definition injectNav (position : Position) (chapterIndex : option Z) (p : Page) : Page :=
  match qs_nav (position_class position) p with
  | Some _ => p
  | None =>
      let nav := buildNav position chapterIndex in
      match position with
      | Top => {| navs_before := navs_before p ++ [nav]; navs_after := navs_after p |}
      | Bottom => {| navs_before := navs_before p; navs_after := nav :: navs_after p |}
      end
  end.

(** Lines 116-122 of [init]. *)
Definition ensureNav (isComments : bool) (chapterIndex : option Z) (p : Page) : Page :=
  if negb isComments then
    if negb (bool_decide (is_Some (qs_nav "chapter-top-nav" p))) then
      injectNav Bottom chapterIndex (injectNav Top chapterIndex p)
    else p
  else p.

(** ** Collapsible bars ([reader.js], lines 125-139) *)

(** [classList.toggle(token, force)] *)
Definition classList_toggle (token : string) (force : bool) (cl : gset string) : gset string :=
  if force then cl ∪ {[ token ]} else cl ∖ {[ token ]}.

Definition string_of_bool (b : bool) : string := if b then "true" else "false".

(** The click listener of the toggle; it is registered only when the bar
    has both a toggle and a links container. *)
Definition toggle_click (navEl : NavEl) : NavEl :=
  match toggle navEl, links navEl with
  | Some attr, Some linksCl =>
      let expanded := bool_decide (attr = Some "true") in
      {| classList := classList_toggle "is-open" (negb expanded) (classList navEl);
         nav_aria_label := nav_aria_label navEl;
         anchors := anchors navEl;
         toggle := Some (Some (string_of_bool (negb expanded)));
         links := Some (classList_toggle "is-expanded" (negb expanded) linksCl) |}
  | _, _ => navEl
  end.

Definition make_visible (navEl : NavEl) : NavEl :=
  {| classList := classList navEl ∪ {[ "is-visible" ]};
     nav_aria_label := nav_aria_label navEl;
     anchors := anchors navEl;
     toggle := toggle navEl;
     links := links navEl |}.

Definition is_nav (n : NavEl) : bool :=
  has_class "chapter-top-nav" n || has_class "chapter-nav" n.

Definition showNavs (p : Page) : Page :=
  let f := fun n => if is_nav n then make_visible n else n in
  {| navs_before := f <$> navs_before p; navs_after := f <$> navs_after p |}.


(** ** Chapter identity and storage key ([reader.js], lines 54-58) *)

(** What [init] reads of the article element: [dataset.number],
    [dataset.type] (absent when the attribute is) and [id] (the empty
    string when there is none). *)
Record Article := {
  dataset_number : option string;
  dataset_type : option string;
  article_id : string
}.

(** [article.dataset.number ? parseInt(article.dataset.number, 10) : NaN] *)
Definition dataNumber (a : Article) : option Z :=
  match dataset_number a with
  | Some "" | None => None
  | Some s => Num.parseInt s
  end.

Definition isPrologue (a : Article) : bool :=
  bool_decide (dataset_type a = Some "prologue") || bool_decide (article_id a = "prologue").

Definition isComments (a : Article) : bool :=
  bool_decide (dataset_type a = Some "comments").

Definition chapterIndex (a : Article) : option Z :=
  match dataNumber a with
  | Some n => Some n
  | None => if isPrologue a then Some 0 else None
  end.

(** [chapterIndex === 0 ? 'prologue' : (chapterIndex || article.id)], as
    the template literal prints it. *)
Definition key_part (a : Article) : string :=
  match chapterIndex a with
  | Some 0 => "prologue"
  | Some n => Num.to_string (Num.of_Z n)
  | None => article_id a
  end.

Definition storageKey (a : Article) : string :=
  "ashbones:act1:chapter:" ++ key_part a ++ ":scroll".

(** ** The local store *)

(** The entries of [localStorage], and whether the browser refuses reads
    (storage disabled) or writes (storage disabled, quota exceeded). *)
Record Storage := {
  items : gmap string string;
  read_fails : bool;
  write_fails : bool
}.

Definition getItem (key : string) (st : Storage) : Completion (option string) :=
  if read_fails st then Throw "SecurityError" else Normal (items st !! key).

Definition setItem (key value : string) (st : Storage) : Completion Storage :=
  if write_fails st then Throw "QuotaExceededError"
  else Normal {| items := <[key := value]> (items st);
                 read_fails := read_fails st; write_fails := write_fails st |}.

Definition removeItem (key : string) (st : Storage) : Completion Storage :=
  if write_fails st then Throw "SecurityError"
  else Normal {| items := delete key (items st);
                 read_fails := read_fails st; write_fails := write_fails st |}.

(** ** Reading progress ([reader.js], lines 141-179) *)

(** A [DOMRect]: [top] and [bottom] are derived from [y] and [height]. *)
Record DOMRect := { rect_y : Q; rect_height : Q }.

Definition rect_top (r : DOMRect) : Q := Qmin (rect_y r) (rect_y r + rect_height r).
Definition rect_bottom (r : DOMRect) : Q := Qmax (rect_y r) (rect_y r + rect_height r).

(** The state the progress code reads and writes.  [rect] is what
    [article.getBoundingClientRect()] returns now; [scrollTo_log] holds
    the arguments of the calls of [window.scrollTo], latest first;
    [bar_width] and [percent_text] are the strings last assigned to
    [bar.style.width] and [percent.textContent]. *)
Record Reader := {
  localStorage : Storage;
  innerHeight : Z;
  scrollHeight : Z;
  rect : DOMRect;
  scrollTo_log : list (JsNum * JsNum);
  bar_width : string;
  percent_text : string
}.

Definition set_localStorage (st : Storage) (r : Reader) : Reader :=
  {| localStorage := st; innerHeight := innerHeight r; scrollHeight := scrollHeight r;
     rect := rect r; scrollTo_log := scrollTo_log r;
     bar_width := bar_width r; percent_text := percent_text r |}.

Definition scrollTo (x y : JsNum) (r : Reader) : Reader :=
  {| localStorage := localStorage r; innerHeight := innerHeight r;
     scrollHeight := scrollHeight r; rect := rect r;
     scrollTo_log := (x, y) :: scrollTo_log r;
     bar_width := bar_width r; percent_text := percent_text r |}.

Definition set_progress_ui (width text : string) (r : Reader) : Reader :=
  {| localStorage := localStorage r; innerHeight := innerHeight r;
     scrollHeight := scrollHeight r; rect := rect r;
     scrollTo_log := scrollTo_log r;
     bar_width := width; percent_text := text |}.

(** Lines 142-152.  The only statement of the guarded block that can
    raise is the read, which comes first, so an exception leaves the
    state as it was. *)
Definition restoreScroll (storageKey : string) : Reader -> Reader :=
  try_ignore (fun r =>
    saved ← getItem storageKey (localStorage r);
    match saved with
    | Some (String _ _ as saved) =>
        let val := Num.parseFloat saved in
        if negb (Num.isNaN val) && Num.gt val (Num.of_Z 0) && Num.lt val (Num.of_Z 1) then
          let y := Num.Math_floor
                     (Num.mul (Num.sub (Num.of_Z (scrollHeight r)) (Num.of_Z (innerHeight r))) val) in
          Normal (scrollTo (Num.of_Z 0) y r)
        else Normal r
    | _ => Normal r
    end).

(** Lines 155-166. *)
Definition updateProgress (storageKey : string) (r : Reader) : Reader :=
  let rect := rect r in
  let windowH := Num.of_Z (innerHeight r) in
  let visible :=
    Num.Math_max (Num.of_Z 0)
      (Num.sub (Num.Math_min (Fin (rect_bottom rect)) windowH)
               (Num.Math_max (Fin (rect_top rect)) (Num.of_Z 0))) in
  let percentVisible :=
    Num.Math_round (Num.mul (Num.div visible (Fin (rect_height rect))) (Num.of_Z 100)) in
  let clamped := Num.Math_max (Num.of_Z 0) (Num.Math_min (Num.of_Z 100) percentVisible) in
  let r1 := set_progress_ui (Num.to_string clamped ++ "%") (Num.to_string clamped ++ "%") r in
  try_ignore (fun r =>
    st ← setItem storageKey (Num.to_string (Num.div clamped (Num.of_Z 100))) (localStorage r);
    Normal (set_localStorage st r)) r1.

(** ** The animation-frame throttle ([reader.js], lines 168-177) *)

(** [ticking], the number of callbacks
    [() => { updateProgress(); ticking = false; }] waiting in the
    animation-frame queue, and the page.  [runs] is a ghost counter of the
    executions of [updateProgress] by such callbacks. *)
Record Loop := {
  ticking : bool;
  raf_queue : nat;
  runs : nat;
  page : Reader
}.

Definition onScroll (l : Loop) : Loop :=
  if negb (ticking l) then
    {| ticking := true; raf_queue := S (raf_queue l); runs := runs l; page := page l |}
  else l.

Definition raf_callback (storageKey : string) (l : Loop) : Loop :=
  {| ticking := false; raf_queue := raf_queue l; runs := S (runs l);
     page := updateProgress storageKey (page l) |}.

(** What the browser does to the page before it dispatches an event. *)
Definition set_geometry (h : Z) (rc : DOMRect) (r : Reader) : Reader :=
  {| localStorage := localStorage r; innerHeight := h;
     scrollHeight := scrollHeight r; rect := rc;
     scrollTo_log := scrollTo_log r;
     bar_width := bar_width r; percent_text := percent_text r |}.

Inductive Event :=
| Scroll (rc : DOMRect)
| Resize (h : Z) (rc : DOMRect)
| Frame.

Definition with_page (f : Reader -> Reader) (l : Loop) : Loop :=
  {| ticking := ticking l; raf_queue := raf_queue l; runs := runs l; page := f (page l) |}.

(** One turn of the event loop.  A frame runs the callbacks that were
    queued before it, each once. *)
Definition step (storageKey : string) (e : Event) (l : Loop) : Loop :=
  match e with
  | Scroll rc => onScroll (with_page (set_geometry (innerHeight (page l)) rc) l)
  | Resize h rc => onScroll (with_page (set_geometry h rc) l)
  | Frame =>
      Nat.iter (raf_queue l) (raf_callback storageKey)
        {| ticking := ticking l; raf_queue := 0; runs := runs l; page := page l |}
  end.

Definition run (storageKey : string) (es : list Event) (l : Loop) : Loop :=
  fold_left (fun l e => step storageKey e l) es l.

(** The loop as [init] leaves it: [ticking] false, nothing queued. *)
Definition loop_init (r : Reader) : Loop :=
  {| ticking := false; raf_queue := 0; runs := 0; page := r |}.

(** ** The table-of-contents script ([act1-reader.js]) *)

(** The outcome of a handler: it returned, or an exception left it; the
    state is the one reached at that point. *)
Inductive Outcome (S : Type) : Type :=
| Done (s : S)
| Raised (e : string) (s : S).
Arguments Done {S} s.
Arguments Raised {S} e s.

(** The arguments [setProgress] is modelled on: no argument or [null], or
    a number. *)
Inductive JsVal := JUndefined | JNull | JNum (n : JsNum).

Definition falsy (v : JsVal) : bool :=
  match v with
  | JUndefined | JNull | JNum NaN => true
  | JNum (Fin q) => Qeq_bool q 0
  | JNum _ => false
  end.

Definition ToNumber (v : JsVal) : JsNum :=
  match v with
  | JUndefined => NaN
  | JNull => Num.of_Z 0
  | JNum n => n
  end.

Definition ToString (v : JsVal) : string :=
  match v with
  | JUndefined => "undefined"
  | JNull => "null"
  | JNum n => Num.to_string n
  end.

(** [z === v] for an integer [z]. *)
Definition strict_eq_Z (z : Z) (v : JsVal) : bool :=
  match v with
  | JNum (Fin q) => Qeq_bool (inject_Z z) q
  | _ => false
  end.

(** A card [a.toc-card]: [dataset.index] and the [data-last] attribute. *)
Record Card := { card_index : option string; data_last : option string }.

(** The [progress] element [#act-progress]: its [value] content attribute
    as a number, its maximum (the [max] attribute when positive, else 1)
    and [aria-valuenow]. *)
Record ProgressEl := {
  value_attr : option Q;
  progress_max : Q;
  aria_valuenow : option string
}.

(** Reading [progress.value]: 0 without a [value] attribute, else the
    attribute held within 0 and the maximum. *)
Definition progress_value (p : ProgressEl) : Q :=
  match value_attr p with
  | None => 0
  | Some v => if Qle_bool v 0 then 0 else if Qle_bool (progress_max p) v then progress_max p else v
  end.

(** Assigning [progress.value]: the attribute is a [double], so a value
    that is not finite raises [TypeError]. *)
Definition set_progress_value (x : JsNum) (p : ProgressEl) : Completion ProgressEl :=
  match x with
  | Fin q => Normal {| value_attr := Some q; progress_max := progress_max p;
                       aria_valuenow := aria_valuenow p |}
  | _ => Throw "TypeError"
  end.

Definition set_aria_valuenow (s : string) (p : ProgressEl) : ProgressEl :=
  {| value_attr := value_attr p; progress_max := progress_max p; aria_valuenow := Some s |}.

Record Toc := {
  toc_storage : Storage;
  progress : ProgressEl;
  cards : list Card
}.

Definition removeLast (a : Card) : Card :=
  {| card_index := card_index a; data_last := None |}.

Definition setLast (a : Card) : Card :=
  {| card_index := card_index a; data_last := Some "true" |}.

(** [parseInt(a.dataset.index, 10) || 0] *)
Definition card_number (a : Card) : Z :=
  default 0 (Num.parseInt (default "undefined" (card_index a))).

(** [items.find(...)] followed by [setAttribute] on the card found: the
    first matching card is marked. *)
Fixpoint markFirst (index : JsVal) (l : list Card) : list Card :=
  match l with
  | [] => []
  | a :: l' =>
      if strict_eq_Z (card_number a) index then setLast a :: l'
      else a :: markFirst index l'
  end.

(** Lines 36-45. *)
Definition setProgress (index : JsVal) (t : Toc) : Outcome Toc :=
  if falsy index then Done t
  else
    match setItem "act1-last-read" (ToString index) (toc_storage t) with
    | Throw e => Raised e t
    | Normal st =>
        let t1 := {| toc_storage := st; progress := progress t; cards := cards t |} in
        let total := Z.of_nat (length (cards t)) in
        match set_progress_value (Num.Math_min (Num.of_Z total) (ToNumber index)) (progress t) with
        | Throw e => Raised e t1
        | Normal p =>
            let p' := set_aria_valuenow (Num.to_string (Fin (progress_value p))) p in
            Done {| toc_storage := st; progress := p';
                    cards := markFirst index (removeLast <$> cards t) |}
        end
    end.

(** Lines 48-49: restoring the last-read card when the page loads. *)
Definition restoreLastRead (t : Toc) : Outcome Toc :=
  match getItem "act1-last-read" (toc_storage t) with
  | Throw e => Raised e t
  | Normal v =>
      match Num.parseInt (default "null" v) with
      | Some saved => setProgress (JNum (Num.of_Z saved)) t
      | None => Done t
      end
  end.

(** Lines 76-79: the click listener of the card [a]. *)
Definition card_click (a : Card) (t : Toc) : Outcome Toc :=
  setProgress (JNum (Num.of_Z (card_number a))) t.

(** Lines 83-88: the click listener of [#clear-progress]. *)
Definition clear_click (t : Toc) : Outcome Toc :=
  match removeItem "act1-last-read" (toc_storage t) with
  | Throw e => Raised e t
  | Normal st =>
      let t1 := {| toc_storage := st; progress := progress t; cards := cards t |} in
      match set_progress_value (Num.of_Z 0) (progress t) with
      | Throw e => Raised e t1
      | Normal p =>
          Done {| toc_storage := st; progress := set_aria_valuenow "0" p;
                  cards := removeLast <$> cards t |}
      end
  end.

(** ** Navigation set-up of [init] (lines 116-126) *)

Definition init_nav (a : Article) (p : Page) : Page :=
  showNavs (ensureNav (isComments a) (chapterIndex a) p).

(** ** Keyboard shortcuts of the reader ([reader.js], lines 182-194) *)

Module Str.

(** [toLowerCase] on the letters of ASCII; other characters are left as
    they are, which is what a case-insensitive match against an ASCII
    pattern needs, and is [toLowerCase] itself on ASCII text. *)
Definition lower_ascii (c : ascii) : ascii :=
  let n := nat_of_ascii c in
  if (Nat.leb 65 n && Nat.leb n 90)%bool then ascii_of_nat (n + 32) else c.

Fixpoint toLowerCase (s : string) : string :=
  match s with
  | String c s' => String (lower_ascii c) (toLowerCase s')
  | EmptyString => EmptyString
  end.

(** [s.includes(sub)] *)
Fixpoint includes (s sub : string) : bool :=
  String.prefix sub s ||
  match s with
  | String _ s' => includes s' sub
  | EmptyString => false
  end.

Fixpoint trimEnd (s : string) : string :=
  match s with
  | String c s' =>
      match trimEnd s' with
      | EmptyString => if Num.is_white c then EmptyString else String c EmptyString
      | t => String c t
      end
  | EmptyString => EmptyString
  end.

(** [s.trim()], for the white space of ASCII. *)
Definition trim (s : string) : string := trimEnd (Num.skip_white s).

End Str.

(** A [keydown] event: the key, and the tag name of its target when the
    target is an element. *)
Record KeyEvent := { key : string; target_tagName : option string }.

(** [/input|textarea|select/i.test(tagName)]; an absent tag name is
    tested as the text [undefined]. *)
Definition is_form_field (tagName : option string) : bool :=
  let t := Str.toLowerCase (default "undefined" tagName) in
  Str.includes t "input" || Str.includes t "textarea" || Str.includes t "select".

(** [qs] for a selector [.chapter-nav a[..], .chapter-top-nav a[..]]: the
    first anchor, in document order, that lies in a bar of one of the two
    classes and satisfies the attribute test. *)
Definition qs_anchor (test : Anchor -> bool) (p : Page) : option Anchor :=
  List.find test (concat (anchors <$> List.filter is_nav (navs_before p ++ navs_after p))).

Definition has_role (role : string) (a : Anchor) : bool :=
  bool_decide (data_role a = Some role).

(** The listener: the location the page is sent to, if any.  The
    location is given as the [href] attribute of the anchor, which the
    browser resolves against the page. *)
Definition keydown (e : KeyEvent) (p : Page) : option string :=
  if is_form_field (target_tagName e) then None
  else if String.eqb (key e) "n" then href <$> qs_anchor (has_role "next") p
  else if String.eqb (key e) "p" then href <$> qs_anchor (has_role "prev") p
  else if String.eqb (key e) "t" then
    href <$> qs_anchor (fun a => Str.includes (href a) "line1-patreonreader.html") p
  else None.

(** ** Search, count and arrow keys of the table of contents
    ([act1-reader.js], lines 11-14, 31-33, 52-72 and 91-107) *)

(** What the search and the arrow keys read of a card: [dataset.title],
    [textContent], the text of its [.toc-card__label] when it has one,
    [dataset.chapter], and its parent element when it has one.  Elements
    are known by a number; two cards may have the same parent. *)
Record TocCard := {
  dataset_title : option string;
  card_text : string;
  label_text : option string;
  dataset_chapter : option string;
  parentElement : option nat
}.

(** The cards [items], in document order; [style.display] of the
    elements that have been given one (the others have the empty string);
    the text of [#chapter-count]. *)
Record TocView := {
  view_cards : list TocCard;
  style_display : gmap nat string;
  count_text : string
}.

Definition display_of (d : gmap nat string) (e : nat) : string := default "" (d !! e).

(** [x || y] for strings that may be absent. *)
Definition or_string (x : option string) (y : string) : string :=
  match x with
  | Some (String _ _ as s) => s
  | _ => y
  end.

Definition updateCount (visible : nat) : string :=
  Num.to_string (Num.of_Z (Z.of_nat visible)) ++
  (if Nat.eqb visible 1 then " chapter" else " chapters").

(** The test [matches] of [filter], for a term already trimmed and
    lowered. *)
Definition card_matches (term : string) (a : TocCard) : bool :=
  let title := Str.toLowerCase (or_string (dataset_title a) (or_string (Some (card_text a)) "")) in
  let label := Str.toLowerCase (or_string (label_text a) "") in
  let chapter := Str.toLowerCase (or_string (dataset_chapter a) "") in
  match term with
  | EmptyString => true
  | _ => Str.includes title term || Str.includes label term || Str.includes chapter term
  end.

(** [if (a.parentElement) a.parentElement.style.display = matches ? '' : 'none'] *)
Definition show_card (term : string) (d : gmap nat string) (a : TocCard) : gmap nat string :=
  match parentElement a with
  | Some e => <[ e := if card_matches term a then "" else "none" ]> d
  | None => d
  end.

Definition filter_term (q : string) : string := Str.toLowerCase (Str.trim q).

(** Lines 52-64, for a query that is a string. *)
Definition filter (q : string) (v : TocView) : TocView :=
  let term := filter_term q in
  {| view_cards := view_cards v;
     style_display := fold_left (show_card term) (view_cards v) (style_display v);
     count_text := updateCount (length (List.filter (card_matches term) (view_cards v))) |}.

(** The debounced search: the argument of the pending timeout, if one is
    pending; [filter_runs] is a ghost counter of the runs of [filter]. *)
Record Search := {
  pending : option string;
  filter_runs : nat;
  view : TocView
}.

Inductive SearchEvent :=
| Input (value : string)
| Timeout.

(** [clearTimeout(t); t = setTimeout(() => fn(...args), wait)] on an
    input; the run of [fn] when the pending timeout elapses. *)
Definition search_step (e : SearchEvent) (s : Search) : Search :=
  match e with
  | Input value =>
      {| pending := Some value; filter_runs := filter_runs s; view := view s |}
  | Timeout =>
      match pending s with
      | Some value =>
          {| pending := None; filter_runs := S (filter_runs s);
             view := filter value (view s) |}
      | None => s
      end
  end.

Definition search_run (es : list SearchEvent) (s : Search) : Search :=
  fold_left (fun s e => search_step e s) es s.

(** Lines 92-106.  [focus] is the card that received the focus last. *)
Record ArrowNav := { focusedIndex : Z; focus : option TocCard }.

Definition is_text_field (tagName : option string) : bool :=
  let t := Str.toLowerCase (default "undefined" tagName) in
  Str.includes t "input" || Str.includes t "textarea".

(** [items.filter(a => a.parentElement && a.parentElement.style.display !== 'none')] *)
Definition visibleItems (v : TocView) : list TocCard :=
  List.filter (fun a => match parentElement a with
                        | Some e => negb (String.eqb (display_of (style_display v) e) "none")
                        | None => false
                        end) (view_cards v).

(** [focusedIndex = i; visibleItems[focusedIndex].focus()]: an index
    outside the list yields [undefined], on which the call raises. *)
Definition focus_at (i : Z) (visible : list TocCard) (st : ArrowNav) : Outcome ArrowNav :=
  match (if 0 <=? i then visible !! Z.to_nat i else None) with
  | Some a => Done {| focusedIndex := i; focus := Some a |}
  | None => Raised "TypeError" {| focusedIndex := i; focus := focus st |}
  end.

(** The listener of the arrow keys.  The remainder is that of
    JavaScript: truncated, with the sign of the dividend. *)
Definition arrow_key (k : string) (activeTag : option string)
    (v : TocView) (st : ArrowNav) : Outcome ArrowNav :=
  if is_text_field activeTag then Done st
  else
    let visible := visibleItems v in
    let n := Z.of_nat (length visible) in
    match visible with
    | [] => Done st
    | _ =>
        if String.eqb k "ArrowDown" || String.eqb k "ArrowRight" then
          focus_at (Z.rem (focusedIndex st + 1) n) visible st
        else if String.eqb k "ArrowUp" || String.eqb k "ArrowLeft" then
          focus_at (Z.rem (focusedIndex st - 1 + n) n) visible st
        else Done st
    end.

(** ** Vocabulary of the statements *)

(** The location of chapter [n], and the anchors a synthesised bar can
    hold. *)
Definition chapter_path (n : Z) : string :=
  "patreonchapter-" ++ string_of_Z n ++ ".html".

Definition prev_link (n : Z) : Anchor :=
  {| href := chapter_path n; textContent := "Previous";
     data_role := Some "prev"; anchor_aria_label := None |}.

Definition next_link (n : Z) : Anchor :=
  {| href := chapter_path n; textContent := "Next";
     data_role := Some "next"; anchor_aria_label := None |}.

Definition toc_link (text : string) : Anchor :=
  {| href := toc_path; textContent := text;
     data_role := None; anchor_aria_label := None |}.

(** The identity of a chapter, as [init] determines it: the prologue, a
    numbered chapter (any ordinal but 0), or a page known by the [id] of
    its article only. *)
Inductive ChapterId :=
| Prologue
| Numbered (n : Z)
| Fallback (id : string).

Definition identity (a : Article) : ChapterId :=
  match chapterIndex a with
  | Some 0 => Prologue
  | Some n => Numbered n
  | None => Fallback (article_id a)
  end.

(** A collapsible bar whose [aria-expanded] attribute is ["true"] or
    ["false"] and whose classes [is-open] and [is-expanded] are present
    exactly when it is ["true"]. *)
Definition consistent (navEl : NavEl) : Prop :=
  match toggle navEl, links navEl with
  | Some attr, Some linksCl =>
      (attr = Some "true" /\ ("is-open" ∈ classList navEl) /\ ("is-expanded" ∈ linksCl)) \/
      (attr = Some "false" /\ ("is-open" ∉ classList navEl) /\ ("is-expanded" ∉ linksCl))
  | _, _ => True
  end.

(** The throttle is at rest, or it holds exactly one callback. *)
Definition throttle_inv (l : Loop) : Prop :=
  (ticking l = false /\ raf_queue l = 0%nat) \/ (ticking l = true /\ raf_queue l = 1%nat).

(** A scroll or resize event. *)
Definition is_input (e : Event) : Prop :=
  match e with
  | Frame => False
  | _ => True
  end.

(** The largest integer up to which every integer is a double. *)
Definition max_exact : Z := 9007199254740992.

(** The page [p'] is the page [p] with the bar [nav] put next to the
    article: before it for the top bar, after it for the bottom bar. *)
Definition inserted (position : Position) (p p' : Page) (nav : NavEl) : Prop :=
  match position with
  | Top => p' = {| navs_before := navs_before p ++ [nav]; navs_after := navs_after p |}
  | Bottom => p' = {| navs_before := navs_before p; navs_after := nav :: navs_after p |}
  end.

(** The chapter index of the article, if it has one, is an integer of
    the range in which every integer is a double. *)
Definition exact_index (a : Article) : Prop :=
  match chapterIndex a with
  | Some n => - max_exact <= n <= max_exact
  | None => True
  end.

(** The value [read_digits] builds from the digits of a numeral, on top
    of [acc]. *)
Fixpoint digits_value (d : Decimal.uint) (acc : Z) : Z :=
  match d with
  | Decimal.Nil => acc
  | Decimal.D0 d => digits_value d (10 * acc)
  | Decimal.D1 d => digits_value d (10 * acc + 1)
  | Decimal.D2 d => digits_value d (10 * acc + 2)
  | Decimal.D3 d => digits_value d (10 * acc + 3)
  | Decimal.D4 d => digits_value d (10 * acc + 4)
  | Decimal.D5 d => digits_value d (10 * acc + 5)
  | Decimal.D6 d => digits_value d (10 * acc + 6)
  | Decimal.D7 d => digits_value d (10 * acc + 7)
  | Decimal.D8 d => digits_value d (10 * acc + 8)
  | Decimal.D9 d => digits_value d (10 * acc + 9)
  end.

(** A card carries the last-read marker. *)
Definition marked (a : Card) : bool := bool_decide (data_last a = Some "true").

(** The percentage [updateProgress] computes from the rectangle of the
    article and the height of the window. *)
Definition clamped_percent (rc : DOMRect) (windowH : Z) : JsNum :=
  let visible :=
    Num.Math_max (Num.of_Z 0)
      (Num.sub (Num.Math_min (Fin (rect_bottom rc)) (Num.of_Z windowH))
               (Num.Math_max (Fin (rect_top rc)) (Num.of_Z 0))) in
  Num.Math_max (Num.of_Z 0)
    (Num.Math_min (Num.of_Z 100)
       (Num.Math_round (Num.mul (Num.div visible (Fin (rect_height rc))) (Num.of_Z 100)))).

(** The double [k / 100] that [updateProgress] stores for the percentage
    [k]. *)
Definition hundredth (k : Z) : JsNum := Num.div (Num.of_Z k) (Num.of_Z 100).

(** Equality of numbers, as values. *)
Definition num_eqb (a b : JsNum) : bool :=
  match a, b with
  | NaN, NaN | NegInf, NegInf | PosInf, PosInf => true
  | Fin x, Fin y => (Qnum x =? Qnum y) && Pos.eqb (Qden x) (Qden y)
  | _, _ => false
  end.

(** For the percentage [k]: the text stored is not empty, [parseFloat]
    reads it back as the double stored, and that double lies strictly
    between 0 and 1 exactly when [k] lies strictly between 0 and 100. *)
Definition reload_check (k : Z) : bool :=
  let s := Num.to_string (hundredth k) in
  negb (String.eqb s "") &&
  num_eqb (Num.parseFloat s) (hundredth k) &&
  Bool.eqb (negb (Num.isNaN (hundredth k)) && Num.gt (hundredth k) (Num.of_Z 0)
            && Num.lt (hundredth k) (Num.of_Z 1))
           ((0 <? k) && (k <? 100)).

(** * Properties *)

(** ** Worked values *)

Example string_of_Z_0 : string_of_Z 0 = "0".
Proof. reflexivity. Qed.

Example pathForIndex_12 : pathForIndex (Some 12) = "patreonchapter-12.html".
Proof. reflexivity. Qed.

Example pathForIndex_neg : pathForIndex (Some (-3)) = "patreonchapter--3.html".
Proof. reflexivity. Qed.

Example parseInt_12 : Num.parseInt " 12px" = Some 12.
Proof. reflexivity. Qed.

Example parseInt_neg : Num.parseInt "-7" = Some (-7).
Proof. reflexivity. Qed.

Example parseInt_undefined : Num.parseInt "undefined" = None.
Proof. reflexivity. Qed.

Example parseInt_rounds : Num.parseInt "9007199254740993" = Some 9007199254740992.
Proof. vm_compute. reflexivity. Qed.

Example parseFloat_half : Num.parseFloat "0.5" = Fin (1 # 2).
Proof. vm_compute. reflexivity. Qed.

Example parseFloat_exp : Num.parseFloat "25e-2xyz" = Fin (1 # 4).
Proof. vm_compute. reflexivity. Qed.

Example parseFloat_dot : Num.parseFloat "." = NaN.
Proof. reflexivity. Qed.

Example parseFloat_NaN : Num.parseFloat "NaN" = NaN.
Proof. reflexivity. Qed.

Example parseFloat_underflow : Num.parseFloat "1e-400" = Fin 0.
Proof. vm_compute. reflexivity. Qed.

Example parseFloat_rounds_to_one : Num.parseFloat "0.99999999999999999999" = Fin 1.
Proof. vm_compute. reflexivity. Qed.

Example parseFloat_overflow : Num.parseFloat "1e400" = PosInf.
Proof. vm_compute. reflexivity. Qed.

Example to_string_007 : Num.to_string (Num.div (Num.of_Z 7) (Num.of_Z 100)) = "0.07".
Proof. vm_compute. reflexivity. Qed.

Example to_string_1 : Num.to_string (Num.div (Num.of_Z 100) (Num.of_Z 100)) = "1".
Proof. vm_compute. reflexivity. Qed.

Example to_string_sum :
  Num.to_string (Num.sub (Num.parseFloat "0.3") (Num.parseFloat "0.1")) = "0.19999999999999998".
Proof. vm_compute. reflexivity. Qed.

Example to_string_product :
  Num.to_string (Num.mul (Num.parseFloat "0.29") (Num.of_Z 1500)) = "434.99999999999994".
Proof. vm_compute. reflexivity. Qed.

Example to_string_exponent :
  Num.to_string (Num.of_Z (10 ^ 21)) = "1e+21" /\
  Num.to_string (Num.of_Z (2 ^ 70)) = "1.1805916207174113e+21" /\
  Num.to_string (Num.of_Z (2 ^ 60)) = "1152921504606847000" /\
  Num.to_string (Num.parseFloat "0.0000001") = "1e-7" /\
  Num.to_string (Num.parseFloat "5e-324") = "5e-324".
Proof. vm_compute. repeat split; reflexivity. Qed.

Example scenario_half_visible :
  let r := updateProgress "k"
    {| localStorage := {| items := ∅; read_fails := false; write_fails := false |};
       innerHeight := 500; scrollHeight := 2000;
       rect := {| rect_y := 0; rect_height := 1000 |};
       scrollTo_log := []; bar_width := ""; percent_text := "0%" |} in
  bar_width r = "50%" /\ percent_text r = "50%" /\
  items (localStorage r) !! "k" = Some "0.5" /\
  scrollTo_log (restoreScroll "k" r) = [(Num.of_Z 0, Num.of_Z 750)].
Proof. vm_compute. repeat split; reflexivity. Qed.

(** The quotient [29 / 200] is the double just below 0.145, and its
    hundredfold rounds down. *)
Example scenario_rounding :
  let r := updateProgress "k"
    {| localStorage := {| items := ∅; read_fails := false; write_fails := false |};
       innerHeight := 29; scrollHeight := 2000;
       rect := {| rect_y := 0; rect_height := 200 |};
       scrollTo_log := []; bar_width := ""; percent_text := "0%" |} in
  percent_text r = "14%" /\ items (localStorage r) !! "k" = Some "0.14".
Proof. vm_compute. split; reflexivity. Qed.

Example next_link_minus_one :
  nextNum (buildNavLinks (Some (-1))) = Some 0 /\
  textContent (nextAnchor (buildNavLinks (Some (-1)))) = "End of Act".
Proof. vm_compute. split; reflexivity. Qed.

(** ** Integers that are doubles *)

Lemma Qred_inject_Z (z : Z) : Qred (inject_Z z) = inject_Z z.
Proof.
  unfold Qred, inject_Z.
  pose proof (Z.ggcd_gcd z 1) as Hg. pose proof (Z.ggcd_correct_divisors z 1) as Hd.
  destruct (Z.ggcd z 1) as [g [aa bb]]. cbn [fst snd] in *.
  rewrite Z.gcd_1_r in Hg. subst g. destruct Hd as [Ha Hb].
  rewrite Z.mul_1_l in Ha, Hb. subst aa bb. reflexivity.
Qed.

Lemma Qred_integer (q : Q) (z : Z) : (q == inject_Z z)%Q -> Qred q = inject_Z z.
Proof. intros H. rewrite (Qred_complete _ _ H). apply Qred_inject_Z. Qed.

Lemma floor_log2_integer (a : Z) : 0 < a -> Num.floor_log2 a 1 = Z.log2 a.
Proof.
  intros Ha. unfold Num.floor_log2. change (Z.log2 (Z.pos 1)) with 0.
  rewrite Z.sub_0_r. pose proof (Z.log2_nonneg a) as Hn.
  destruct (Z.leb_spec 0 (Z.log2 a)); [|lia].
  rewrite Z.mul_1_r. destruct (Z.log2_spec a Ha) as [H1 _].
  destruct (Z.ltb_spec a (2 ^ Z.log2 a)); [lia | reflexivity].
Qed.

Lemma significand_nonneg (q : Q) : 0 <= Num.significand q.
Proof.
  unfold Num.significand.
  set (tn := if 0 <=? Num.exponent q then _ else _).
  set (td := if 0 <=? Num.exponent q then _ else _).
  assert (Htn : 0 <= tn).
  { subst tn. destruct (0 <=? Num.exponent q); [apply Z.abs_nonneg|].
    apply Z.mul_nonneg_nonneg; [apply Z.abs_nonneg | apply Z.pow_nonneg; lia]. }
  assert (Htd : 0 < td).
  { subst td. destruct (Z.leb_spec 0 (Num.exponent q)); [|lia].
    apply Z.mul_pos_pos; [lia | apply Z.pow_pos_nonneg; lia]. }
  pose proof (Z.div_pos tn td Htn Htd) as Hm.
  destruct (2 * (tn mod td) ?= td); [destruct (Z.even (tn / td))| |]; lia.
Qed.

(** Every integer from [-2^53] to [2^53] is a double. *)
Lemma round_double_integer (z : Z) :
  - max_exact <= z <= max_exact -> Num.round_double (inject_Z z) = Fin (inject_Z z).
Proof.
  intros Hz. unfold max_exact in Hz.
  unfold Num.round_double, Num.significand, Num.exponent. cbn [Qnum Qden inject_Z].
  destruct (Z.eqb_spec z 0) as [->|Hne]; [reflexivity|].
  assert (Ha : 0 < Z.abs z <= 9007199254740992) by lia.
  assert (Hsz : Z.sgn z * Z.abs z = z) by lia.
  revert Ha Hsz. generalize (Z.abs z) as a, (Z.sgn z) as sg. intros a sg Ha Hsz.
  rewrite floor_log2_integer by lia.
  destruct (Z.log2_spec a ltac:(lia)) as [Hlo Hhi].
  assert (Hl : 0 <= Z.log2 a <= 53).
  { split; [apply Z.log2_nonneg|]. change 53 with (Z.log2 9007199254740992).
    apply Z.log2_le_mono. lia. }
  set (l := Z.log2 a) in *.
  replace (Z.max (l - 52) (-1074)) with (l - 52) by lia.
  change (2 ^ 53) with 9007199254740992.
  destruct (Z.leb_spec 0 (l - 52)) as [Hex|Hex].
  - (* the exponent is 0 or 1 *)
    assert (Hcase : l = 52 \/ l = 53) by lia.
    assert (Hd : a mod (1 * 2 ^ (l - 52)) = 0 /\ a / (1 * 2 ^ (l - 52)) * 2 ^ (l - 52) = a
                 /\ 0 < 1 * 2 ^ (l - 52)
                 /\ a / (1 * 2 ^ (l - 52)) < 9007199254740992).
    { destruct Hcase as [E|E]; rewrite E in *.
      - change (2 ^ (52 - 52)) with 1. change (2 ^ (52 + 1)) with 9007199254740992 in Hhi.
        rewrite Z.mod_1_r, Z.div_1_r. lia.
      - change (2 ^ (53 - 52)) with 2. change (2 ^ 53) with 9007199254740992 in Hlo.
        assert (a = 9007199254740992) as -> by lia. repeat split; reflexivity. }
    destruct Hd as (Hr & Hm & Hpos & Hlt). rewrite Hr.
    replace (2 * 0 ?= 1 * 2 ^ (l - 52)) with Lt by (symmetry; apply Z.compare_lt_iff; lia).
    cbv iota.
    destruct (Z.eqb_spec (a / (1 * 2 ^ (l - 52))) 9007199254740992); [lia|].
    destruct (Z.ltb_spec 971 (l - 52 + 0)); [lia|].
    f_equal. apply Qred_integer. unfold Num.scale2.
    destruct (Z.leb_spec 0 (l - 52)); [|lia].
    rewrite <- Z.mul_assoc, Hm, Hsz. reflexivity.
  - (* the exponent is negative *)
    rewrite Z.mod_1_r, Z.div_1_r. change (2 * 0 ?= 1) with Lt. cbv iota.
    assert (Hp : 0 < 2 ^ (- (l - 52))) by (apply Z.pow_pos_nonneg; lia).
    assert (Hb : a * 2 ^ (- (l - 52)) < 9007199254740992).
    { change 9007199254740992 with (2 ^ 53).
      replace 53 with ((l + 1) + (- (l - 52))) by lia.
      rewrite Z.pow_add_r by lia. apply Z.mul_lt_mono_pos_r; assumption. }
    destruct (Z.eqb_spec (a * 2 ^ (- (l - 52))) 9007199254740992); [lia|].
    destruct (Z.ltb_spec 971 (l - 52 + 0)); [lia|].
    f_equal. apply Qred_integer. unfold Num.scale2.
    destruct (Z.leb_spec 0 (l - 52)); [lia|].
    unfold Qeq. cbn [Qnum Qden inject_Z]. rewrite Z2Pos.id by assumption.
    rewrite Z.mul_assoc, Hsz. lia.
Qed.

(** The rounding keeps the sign, and yields no [NaN]. *)
Lemma round_double_sign (q : Q) :
  match Num.round_double q with
  | Fin x => (0 <= q -> 0 <= x)%Q /\ (q <= 0 -> x <= 0)%Q
  | PosInf => (0 < q)%Q
  | NegInf => (q < 0)%Q
  | NaN => False
  end.
Proof.
  unfold Num.round_double. destruct q as [n d]. cbn [Qnum Qden].
  destruct (Z.eqb_spec n 0) as [->|Hn]; [split; intros _; apply Qle_refl|].
  pose proof (significand_nonneg (n # d)) as Hm.
  destruct (971 <? _).
  - unfold Num.inf_of_sign. destruct (Z.ltb_spec (Z.sgn n) 0).
    + unfold Qlt. cbn. lia.
    + destruct (Z.ltb_spec 0 (Z.sgn n)); [unfold Qlt; cbn; lia | lia].
  - rewrite Qred_correct. unfold Num.scale2.
    set (m := Num.significand (n # d)) in *. set (ex := Num.exponent (n # d)).
    destruct (Z.leb_spec 0 ex).
    + assert (Hp : 0 < 2 ^ ex) by (apply Z.pow_pos_nonneg; lia).
      unfold Qle. cbn [Qnum Qden inject_Z]. split; intros H0; nia.
    + unfold Qle. cbn [Qnum Qden inject_Z]. split; intros H0; nia.
Qed.

Lemma round_int_exact (z : Z) :
  - max_exact <= z <= max_exact -> Num.round_int z = z.
Proof.
  intros H. unfold Num.round_int. rewrite round_double_integer by assumption.
  apply Qfloor_Z.
Qed.

Lemma string_of_Z_pos (p : positive) :
  string_of_Z (Z.pos p) = NilEmpty.string_of_uint (Pos.to_uint p).
Proof.
  unfold string_of_Z. cbn [Z.to_int NilZero.string_of_int NilZero.string_of_uint].
  pose proof (DecimalPos.Unsigned.to_uint_nonnil p) as H.
  destruct (Pos.to_uint p); [contradiction | reflexivity ..].
Qed.

Lemma string_of_Z_neg (p : positive) :
  string_of_Z (Z.neg p) = String "-" (string_of_Z (Z.pos p)).
Proof.
  rewrite string_of_Z_pos. unfold string_of_Z. cbn [Z.to_int NilZero.string_of_int].
  f_equal. pose proof (DecimalPos.Unsigned.to_uint_nonnil p) as H.
  unfold NilZero.string_of_uint. destruct (Pos.to_uint p); [contradiction | reflexivity ..].
Qed.

(** An integer from [-2^53] to [2^53] prints as its decimal numeral. *)
Lemma to_string_integer (z : Z) :
  - max_exact <= z <= max_exact -> Num.to_string (Num.of_Z z) = string_of_Z z.
Proof.
  intros Hz. unfold max_exact in Hz. unfold Num.to_string, Num.of_Z.
  rewrite Qred_inject_Z. cbn [Qnum inject_Z].
  destruct z as [|p|p]; [reflexivity | | ].
  - change (Z.pos p =? 0) with false. change (Z.pos p <? 0) with false. cbv iota.
    unfold Num.to_string_pos. cbn [Qnum Qden inject_Z].
    change (Z.pos 1 =? 1) with true. change (2 ^ 53) with 9007199254740992.
    destruct (Z.leb_spec (Z.pos p) 9007199254740992); [reflexivity | lia].
  - change (Z.neg p =? 0) with false. change (Z.neg p <? 0) with true. cbv iota.
    unfold Num.to_string_pos. cbn [Qnum Qden inject_Z Qopp Z.opp].
    change (Z.pos 1 =? 1) with true. change (2 ^ 53) with 9007199254740992.
    change (- Z.neg p) with (Z.pos p).
    destruct (Z.leb_spec (Z.pos p) 9007199254740992); [|lia].
    cbn [andb]. now rewrite string_of_Z_neg.
Qed.

(** ** Navigation targets *)

Lemma pathForIndex_chapter (n : Z) :
  n <> 0 -> - max_exact <= n <= max_exact -> pathForIndex (Some n) = chapter_path n.
Proof.
  intros Hn Hr. unfold pathForIndex, truthy.
  destruct (Z.eqb_spec n 0) as [->|_]; [lia|]. cbn [negb].
  unfold chapter_path. rewrite <- to_string_integer by assumption.
  destruct n as [|[p|p|]|p]; reflexivity.
Qed.

Lemma pathForIndex_toc (num : option Z) :
  num = None \/ num = Some 0 -> pathForIndex num = toc_path.
Proof. intros [->| ->]; reflexivity. Qed.

Lemma buildNavLinks_prev (n : Z) :
  prevNum (buildNavLinks (Some n)) = if 1 <? n then Some (Num.round_int (n - 1)) else None.
Proof. reflexivity. Qed.

Lemma buildNavLinks_next (n : Z) :
  nextNum (buildNavLinks (Some n)) = if n =? 0 then None else Some (Num.round_int (n + 1)).
Proof. cbn [buildNavLinks nextNum truthy]. destruct (n =? 0); reflexivity. Qed.

Lemma buildNavLinks_null :
  buildNavLinks None = {| prevNum := None; nextNum := None |}.
Proof. reflexivity. Qed.

(** On a page without a bar of that kind, [injectNav] inserts the bar of
    [buildNav] next to the article. *)
Lemma injectNav_fresh (position : Position) (idx : option Z) (p : Page) :
  qs_nav (position_class position) p = None ->
  inserted position p (injectNav position idx p) (buildNav position idx).
Proof. intros H. unfold injectNav. rewrite H. destruct position; reflexivity. Qed.

Lemma injectNav_keeps (position : Position) (idx : option Z) (p : Page) (n : NavEl) :
  qs_nav (position_class position) p = Some n -> injectNav position idx p = p.
Proof. intros H. unfold injectNav. rewrite H. reflexivity. Qed.

(** A page without navigation bars, other than a comments page, gets the
    two synthesised bars around the article, both made visible. *)
Lemma init_nav_fresh (a : Article) :
  isComments a = false ->
  init_nav a {| navs_before := []; navs_after := [] |} =
    {| navs_before := [make_visible (buildNav Top (chapterIndex a))];
       navs_after := [make_visible (buildNav Bottom (chapterIndex a))] |}.
Proof. intros H. unfold init_nav. rewrite H. reflexivity. Qed.

(** A page that brings its own top bar, and a comments page, get none. *)
Lemma init_nav_custom (a : Article) (p : Page) (n : NavEl) :
  qs_nav "chapter-top-nav" p = Some n -> init_nav a p = showNavs p.
Proof.
  intros H. unfold init_nav, ensureNav. rewrite H.
  destruct (isComments a); [reflexivity|].
  rewrite bool_decide_eq_true_2 by eauto. reflexivity.
Qed.

Lemma prevAnchor_prev (n : Z) :
  2 <= n <= max_exact -> prevAnchor (buildNavLinks (Some n)) = prev_link (n - 1).
Proof.
  intros Hn. unfold max_exact in Hn. unfold prevAnchor. rewrite buildNavLinks_prev.
  destruct (Z.ltb_spec 1 n) as [_|]; [|lia].
  rewrite round_int_exact by (unfold max_exact; lia).
  cbn [prev_guard]. destruct (Z.ltb_spec 0 (n - 1)) as [_|]; [|lia].
  unfold prev_link. rewrite pathForIndex_chapter by (unfold max_exact; lia). reflexivity.
Qed.

Lemma prevAnchor_toc (idx : option Z) :
  idx = None \/ (exists n, idx = Some n /\ n <= 1) ->
  prevAnchor (buildNavLinks idx) = toc_link "Table of Contents".
Proof.
  intros [->|(n & -> & Hn)]; [reflexivity|].
  unfold prevAnchor. rewrite buildNavLinks_prev.
  destruct (Z.ltb_spec 1 n); [lia | reflexivity].
Qed.

Lemma nextAnchor_next (n : Z) :
  1 <= n < max_exact -> nextAnchor (buildNavLinks (Some n)) = next_link (n + 1).
Proof.
  intros Hn. unfold max_exact in Hn. unfold nextAnchor. rewrite buildNavLinks_next.
  destruct (Z.eqb_spec n 0); [lia|].
  rewrite round_int_exact by (unfold max_exact; lia).
  cbn [truthy]. destruct (Z.eqb_spec (n + 1) 0); [lia|]. cbn [negb].
  unfold next_link. rewrite pathForIndex_chapter by (unfold max_exact; lia). reflexivity.
Qed.

(** Above [2^53] the difference [n - 1] is rounded: the chapter
    [2^53 + 2] gets a previous link to the chapter [2^53]. *)
Lemma prev_link_rounded :
  let a := {| dataset_number := Some "9007199254740994"; dataset_type := None;
              article_id := "" |} in
  let p := injectNav Top (chapterIndex a) {| navs_before := []; navs_after := [] |} in
  chapterIndex a = Some 9007199254740994 /\
  (exists nav, navs_before p = [nav] /\
     href <$> anchors nav !! 0%nat = Some "patreonchapter-9007199254740992.html") /\
  chapter_path (9007199254740994 - 1) <> "patreonchapter-9007199254740992.html".
Proof.
  cbn zeta. split; [vm_compute; reflexivity|]. split.
  - eexists. split; [reflexivity|]. vm_compute. reflexivity.
  - vm_compute. discriminate.
Qed.

(** C1 (amended). On a page without a bar of its kind, [injectNav] puts
    the synthesised bar next to the article.  For a chapter ordinal [n]
    from 2 to [2^53] its first anchor is the previous link, and its
    target is the location [pathForIndex] gives for [n - 1], that is
    [patreonchapter-(n-1).html].  For an ordinal [n <= 1] and for an
    absent ordinal no anchor of the bar has the role [prev], and a
    table-of-contents link to [../line1-patreonreader.html] stands in the
    first place. *)
Theorem prev_link_target (position : Position) (idx : option Z) (p : Page) :
  qs_nav (position_class position) p = None ->
  exists nav, inserted position p (injectNav position idx p) nav /\
    (forall n, idx = Some n -> 2 <= n <= max_exact ->
       anchors nav !! 0%nat = Some (prev_link (n - 1)) /\
       pathForIndex (Some (n - 1)) = chapter_path (n - 1)) /\
    (idx = None \/ (exists n, idx = Some n /\ n <= 1) ->
       anchors nav !! 0%nat = Some (toc_link "Table of Contents") /\
       Forall (fun a => data_role a <> Some "prev") (anchors nav)).
Proof.
  intros Hq. exists (buildNav position idx).
  split; [now apply injectNav_fresh|]. split.
  - intros n -> Hn. split.
    + unfold buildNav. cbn [anchors lookup list_lookup]. now rewrite prevAnchor_prev.
    + apply pathForIndex_chapter; unfold max_exact in *; lia.
  - intros Hidx. unfold buildNav. cbn [anchors lookup list_lookup].
    rewrite (prevAnchor_toc idx Hidx). split; [reflexivity|].
    repeat constructor; try discriminate.
    unfold nextAnchor. destruct (truthy _); discriminate.
Qed.

Lemma prev_link_target_witness :
  (exists nav,
     inserted Top {| navs_before := []; navs_after := [] |}
       (injectNav Top (Some 5) {| navs_before := []; navs_after := [] |}) nav /\
     anchors nav !! 0%nat = Some (prev_link 4)) /\
  (exists nav,
     inserted Bottom {| navs_before := []; navs_after := [] |}
       (injectNav Bottom (Some 1) {| navs_before := []; navs_after := [] |}) nav /\
     anchors nav !! 0%nat = Some (toc_link "Table of Contents")).
Proof.
  split.
  - destruct (prev_link_target Top (Some 5) {| navs_before := []; navs_after := [] |} eq_refl)
      as (nav & Hi & Hp & _).
    exists nav. split; [exact Hi|].
    apply (Hp 5 eq_refl). unfold max_exact. lia.
  - destruct (prev_link_target Bottom (Some 1) {| navs_before := []; navs_after := [] |} eq_refl)
      as (nav & Hi & _ & Ht).
    exists nav. split; [exact Hi|].
    apply Ht. right. exists 1. split; [reflexivity | lia].
Defined.

(** At [2^53] the sum [n + 1] is rounded back to [n]: the next link of
    that chapter points to the chapter itself. *)
Lemma next_link_rounded :
  let a := {| dataset_number := Some "9007199254740992"; dataset_type := None;
              article_id := "" |} in
  let p := injectNav Top (chapterIndex a) {| navs_before := []; navs_after := [] |} in
  chapterIndex a = Some 9007199254740992 /\
  nextNum (buildNavLinks (chapterIndex a)) = Some 9007199254740992 /\
  (exists nav, navs_before p = [nav] /\
     href <$> anchors nav !! 2%nat = Some "patreonchapter-9007199254740992.html") /\
  chapter_path (9007199254740992 + 1) <> "patreonchapter-9007199254740992.html".
Proof.
  cbn zeta. split; [vm_compute; reflexivity|]. split; [vm_compute; reflexivity|]. split.
  - eexists. split; [reflexivity|]. vm_compute. reflexivity.
  - vm_compute. discriminate.
Qed.

(** C2 (amended). On a page without a bar of its kind, [injectNav] puts
    the synthesised bar next to the article.  For a chapter ordinal below
    [2^53] (a non-negative integer, or absent): when [buildNavLinks]
    defines a next ordinal [m], the ordinal is [m - 1], at least 1, and
    the last anchor of the bar is the next link to
    [patreonchapter-m.html]; when it defines none, the ordinal is 0 (the
    prologue) or absent, and the last anchor is the [End of Act] link to
    the table of contents. *)
Theorem next_link_target (position : Position) (idx : option Z) (p : Page) :
  qs_nav (position_class position) p = None ->
  idx = None \/ (exists n, idx = Some n /\ 0 <= n < max_exact) ->
  exists nav, inserted position p (injectNav position idx p) nav /\
    match nextNum (buildNavLinks idx) with
    | Some m =>
        idx = Some (m - 1) /\ 1 <= m - 1 /\
        anchors nav !! 2%nat = Some (next_link m) /\
        pathForIndex (Some m) = chapter_path m
    | None =>
        (idx = None \/ idx = Some 0) /\
        anchors nav !! 2%nat = Some (toc_link "End of Act")
    end.
Proof.
  intros Hq Hidx. exists (buildNav position idx).
  split; [now apply injectNav_fresh|].
  destruct Hidx as [->|(n & -> & Hn)].
  - split; [left|]; reflexivity.
  - unfold max_exact in Hn. destruct (Z.eq_dec n 0) as [->|Hz].
    + split; [right|]; reflexivity.
    + pose proof (nextAnchor_next n ltac:(unfold max_exact; lia)) as Ha.
      rewrite buildNavLinks_next in *.
      destruct (Z.eqb_spec n 0); [contradiction|].
      rewrite round_int_exact by (unfold max_exact; lia).
      split; [f_equal; lia|]. split; [lia|]. split.
      * unfold buildNav. cbn [anchors lookup list_lookup]. now rewrite Ha.
      * apply pathForIndex_chapter; unfold max_exact; lia.
Qed.

Lemma next_link_target_witness :
  (exists nav,
     inserted Top {| navs_before := []; navs_after := [] |}
       (injectNav Top (Some 7) {| navs_before := []; navs_after := [] |}) nav /\
     anchors nav !! 2%nat = Some (next_link 8)) /\
  (exists nav,
     inserted Top {| navs_before := []; navs_after := [] |}
       (injectNav Top (Some 0) {| navs_before := []; navs_after := [] |}) nav /\
     anchors nav !! 2%nat = Some (toc_link "End of Act")).
Proof.
  split.
  - destruct (next_link_target Top (Some 7) {| navs_before := []; navs_after := [] |} eq_refl)
      as (nav & Hi & H).
    { right. exists 7. split; [reflexivity | unfold max_exact; lia]. }
    exists nav. split; [exact Hi|].
    change (nextNum (buildNavLinks (Some 7))) with (Some 8) in H. apply H.
  - destruct (next_link_target Top (Some 0) {| navs_before := []; navs_after := [] |} eq_refl)
      as (nav & Hi & H).
    { right. exists 0. split; [reflexivity | unfold max_exact; lia]. }
    exists nav. split; [exact Hi|]. apply H.
Defined.

(** The operators do raise on other arguments: a BigInt above 1 cannot
    be mixed with the Number 1, and a Symbol cannot be compared or
    printed. *)
Example nav_mapping_raises :
  Dyn.buildNavLinks (Dyn.VBigInt 5) = Throw "TypeError" /\
  Dyn.buildNavLinks Dyn.VSymbol = Throw "TypeError" /\
  Dyn.pathForIndex Dyn.VSymbol = Throw "TypeError" /\
  Dyn.pathForIndex (Dyn.VBigInt 5) = Normal "patreonchapter-5.html".
Proof. repeat split; reflexivity. Qed.

(** C3. Called with a Number that holds an integer (zero, one, negative
    or large), with [null] or with [undefined], [buildNavLinks] and
    [pathForIndex] complete normally, no operator of theirs raising, and
    their results are those of the functions on chapter indices. *)
Theorem nav_mapping_total (n : Z) :
  Dyn.buildNavLinks (Dyn.VNumber n) = Normal (buildNavLinks (Some n)) /\
  Dyn.pathForIndex (Dyn.VNumber n) = Normal (pathForIndex (Some n)) /\
  Dyn.buildNavLinks Dyn.VNull = Normal (buildNavLinks None) /\
  Dyn.pathForIndex Dyn.VNull = Normal (pathForIndex None) /\
  Dyn.buildNavLinks Dyn.VUndefined = Normal (buildNavLinks None) /\
  Dyn.pathForIndex Dyn.VUndefined = Normal (pathForIndex None).
Proof.
  split; [|split; [|repeat split; reflexivity]].
  - unfold Dyn.buildNavLinks, Dyn.prevNum, Dyn.nextNum, buildNavLinks.
    cbn [mbind completion_bind gt1 truthy fmap option_fmap option_map].
    destruct (1 <? n), (n =? 0); reflexivity.
  - unfold Dyn.pathForIndex, pathForIndex, Dyn.truthy, truthy.
    destruct (Z.eqb_spec n 0); [reflexivity|]. cbn [negb].
    destruct n as [|[q|q|]|q]; reflexivity.
Qed.
(** ** Collapsible bars *)

Lemma classList_toggle_off_on (token : string) (cl : gset string) :
  token ∈ cl -> classList_toggle token true (classList_toggle token false cl) = cl.
Proof.
  intros H. unfold classList_toggle. apply set_eq. intros x.
  destruct (decide (x = token)) as [->|]; set_solver.
Qed.

Lemma classList_toggle_on_off (token : string) (cl : gset string) :
  token ∉ cl -> classList_toggle token false (classList_toggle token true cl) = cl.
Proof. intros H. unfold classList_toggle. set_solver. Qed.

(** Whatever the bar looked like, one activation leaves it consistent. *)
Lemma toggle_click_consistent (navEl : NavEl) : consistent (toggle_click navEl).
Proof.
  unfold consistent, toggle_click.
  destruct (toggle navEl) as [attr|] eqn:Ht, (links navEl) as [lc|] eqn:Hl;
    cbn [toggle links classList]; rewrite ?Ht, ?Hl; try exact I.
  destruct (bool_decide (attr = Some "true")); cbn [negb string_of_bool classList_toggle].
  - right. split; [reflexivity|]. set_solver.
  - left. split; [reflexivity|]. set_solver.
Qed.

(** Only a consistent bar comes back after two activations. *)
Lemma toggle_click_twice_only_consistent (navEl : NavEl) :
  toggle_click (toggle_click navEl) = navEl -> consistent navEl.
Proof. intros H. rewrite <- H. apply toggle_click_consistent. Qed.

(** A bar that has no [aria-expanded] attribute yet, or whose classes do
    not agree with it, does not come back after two activations. *)
Lemma toggle_twice_not_identity :
  let navEl := {| classList := {[ "chapter-top-nav" ]}; nav_aria_label := None;
                  anchors := []; toggle := Some None; links := Some ∅ |} in
  toggle (toggle_click (toggle_click navEl)) = Some (Some "false") /\
  toggle_click (toggle_click navEl) <> navEl.
Proof.
  cbn zeta. split; [reflexivity|].
  intros H. apply (f_equal toggle) in H. discriminate H.
Qed.

(** C6 (amended). For a collapsible bar in a consistent state, two
    activations of the toggle in succession bring [aria-expanded], the
    classes of the bar and the classes of its links container back to the
    original state. *)
Theorem toggle_click_twice (navEl : NavEl) :
  consistent navEl -> toggle_click (toggle_click navEl) = navEl.
Proof.
  destruct navEl as [cl lbl an tg lk]. unfold consistent, toggle_click.
  cbn [toggle links classList nav_aria_label anchors].
  destruct tg as [attr|], lk as [lc|]; try reflexivity.
  intros [(-> & Ho & He)|(-> & Ho & He)];
    cbn [toggle links classList nav_aria_label anchors];
    rewrite ?bool_decide_eq_true_2, ?bool_decide_eq_false_2 by (reflexivity || discriminate);
    cbn [negb string_of_bool];
    rewrite ?bool_decide_eq_true_2, ?bool_decide_eq_false_2 by (reflexivity || discriminate);
    cbn [negb string_of_bool].
  - rewrite !classList_toggle_off_on by assumption. reflexivity.
  - rewrite !classList_toggle_on_off by assumption. reflexivity.
Qed.

Lemma toggle_click_twice_witness :
  let navEl := {| classList := {[ "chapter-nav"; "is-open" ]}; nav_aria_label := None;
                  anchors := []; toggle := Some (Some "true");
                  links := Some {[ "is-expanded" ]} |} in
  toggle_click (toggle_click navEl) = navEl.
Proof.
  cbn zeta. apply toggle_click_twice.
  left. split; [reflexivity|]. split; set_solver.
Defined.

(** ** Storage keys *)

Lemma list_ascii_of_append (s t : string) :
  list_ascii_of_string (s ++ t) = (list_ascii_of_string s ++ list_ascii_of_string t)%list.
Proof. induction s as [|c s IH]; simpl; [reflexivity | now rewrite IH]. Qed.

Lemma append_inj_l (s1 s2 t : string) : s1 ++ t = s2 ++ t -> s1 = s2.
Proof.
  intros H. apply (f_equal list_ascii_of_string) in H.
  rewrite !list_ascii_of_append in H. apply app_inv_tail in H.
  rewrite <- (string_of_list_ascii_of_string s1), <- (string_of_list_ascii_of_string s2).
  now rewrite H.
Qed.

Lemma to_int_nonnil (n : Z) :
  Z.to_int n <> Decimal.Pos Decimal.Nil /\ Z.to_int n <> Decimal.Neg Decimal.Nil.
Proof.
  destruct n as [|p|p]; cbn; split; try discriminate;
    intros [= H]; exact (DecimalPos.Unsigned.to_uint_nonnil p H).
Qed.

Lemma int_of_string_of_Z (n : Z) :
  NilZero.int_of_string (string_of_Z n) = Some (Z.to_int n).
Proof. unfold string_of_Z. apply NilZero.isi; apply to_int_nonnil. Qed.

Lemma string_of_Z_inj (a b : Z) : string_of_Z a = string_of_Z b -> a = b.
Proof.
  intros H. apply (f_equal NilZero.int_of_string) in H.
  rewrite !int_of_string_of_Z in H. injection H as H.
  now apply DecimalZ.to_int_inj.
Qed.

Lemma string_of_Z_not_prologue (n : Z) : string_of_Z n <> "prologue".
Proof.
  intros H. apply (f_equal NilZero.int_of_string) in H.
  rewrite int_of_string_of_Z in H. discriminate H.
Qed.

Lemma storageKey_inj_part (a b : Article) :
  storageKey a = storageKey b -> key_part a = key_part b.
Proof.
  unfold storageKey. intros H.
  apply (inj (String.app _)) in H. now apply append_inj_l in H.
Qed.


Lemma identity_cases (a : Article) :
  (identity a = Prologue /\ key_part a = "prologue" /\ chapterIndex a = Some 0) \/
  (exists n, n <> 0 /\ identity a = Numbered n /\
     key_part a = Num.to_string (Num.of_Z n) /\ chapterIndex a = Some n) \/
  (exists id, id <> "prologue" /\ identity a = Fallback id /\ key_part a = id /\
     chapterIndex a = None).
Proof.
  unfold identity, key_part. destruct (chapterIndex a) as [n|] eqn:Hc.
  - destruct n as [|q|q]; [left; repeat split; reflexivity | right; left | right; left].
    + exists (Z.pos q). repeat split; discriminate || reflexivity.
    + exists (Z.neg q). repeat split; discriminate || reflexivity.
  - right; right. exists (article_id a). repeat split.
    unfold chapterIndex in Hc. destruct (dataNumber a); [discriminate|].
    destruct (isPrologue a) eqn:Hp; [discriminate|].
    unfold isPrologue in Hp. apply orb_false_iff in Hp as [_ Hp].
    now apply bool_decide_eq_false in Hp.
Qed.

(** An article known by its [id] alone, when that [id] is the numeral of
    a chapter ordinal, shares the key of that numbered chapter. *)
Lemma storageKey_collision :
  let a := {| dataset_number := Some "5"; dataset_type := None; article_id := "chapter-5" |} in
  let b := {| dataset_number := None; dataset_type := None; article_id := "5" |} in
  identity a = Numbered 5 /\ identity b = Fallback "5" /\
  identity a <> identity b /\ storageKey a = storageKey b.
Proof. cbn zeta. repeat split; try reflexivity. discriminate. Qed.

(** C7 (amended). The storage key is a function of the chapter identity.
    Among chapters whose numeric index lies between [-2^53] and [2^53],
    two chapters share a key only when they have the same identity, or
    when one is the numbered chapter [n] and the other is known by an
    [id] that is the decimal numeral of [n]; so the prologue, the
    numbered chapters among themselves and the pages known by their [id]
    among themselves never collide. *)
Theorem storageKey_identity (a b : Article) :
  (identity a = identity b -> storageKey a = storageKey b) /\
  (exact_index a -> exact_index b -> storageKey a = storageKey b ->
     identity a = identity b \/
     exists n, n <> 0 /\
       (identity a = Numbered n /\ identity b = Fallback (string_of_Z n) \/
        identity a = Fallback (string_of_Z n) /\ identity b = Numbered n)).
Proof.
  split.
  - intros H. unfold storageKey. do 2 f_equal.
    destruct (identity_cases a) as [(Ia & Ka & _)|[(n & Hn & Ia & Ka & _)|(i & Hi & Ia & Ka & _)]],
             (identity_cases b) as [(Ib & Kb & _)|[(m & Hm & Ib & Kb & _)|(j & Hj & Ib & Kb & _)]];
      rewrite Ka, Kb; rewrite Ia, Ib in H; congruence.
  - intros Ea Eb H%storageKey_inj_part. unfold exact_index in Ea, Eb.
    destruct (identity_cases a) as [(Ia & Ka & Ca)|[(n & Hn & Ia & Ka & Ca)|(i & Hi & Ia & Ka & Ca)]],
             (identity_cases b) as [(Ib & Kb & Cb)|[(m & Hm & Ib & Kb & Cb)|(j & Hj & Ib & Kb & Cb)]];
      rewrite Ka, Kb in H; rewrite Ia, Ib; rewrite Ca in Ea; rewrite Cb in Eb;
      rewrite ?to_string_integer in H by assumption.
    + now left.
    + symmetry in H. now apply string_of_Z_not_prologue in H.
    + congruence.
    + now apply string_of_Z_not_prologue in H.
    + apply string_of_Z_inj in H. left. congruence.
    + right. exists n. split; [assumption|]. left. split; congruence.
    + congruence.
    + right. exists m. split; [assumption|]. right. split; congruence.
    + left. congruence.
Qed.

Lemma storageKey_identity_witness :
  let a := {| dataset_number := Some "12"; dataset_type := None; article_id := "" |} in
  let b := {| dataset_number := Some " 12 "; dataset_type := Some "chapter"; article_id := "c12" |} in
  let c := {| dataset_number := None; dataset_type := Some "prologue"; article_id := "intro" |} in
  let d := {| dataset_number := Some "0"; dataset_type := None; article_id := "prologue" |} in
  storageKey a = storageKey b /\
  (identity c = identity d \/
   exists n, n <> 0 /\
     (identity c = Numbered n /\ identity d = Fallback (string_of_Z n) \/
      identity c = Fallback (string_of_Z n) /\ identity d = Numbered n)).
Proof.
  cbn zeta. split.
  - apply storageKey_identity. reflexivity.
  - apply storageKey_identity.
    + vm_compute. split; discriminate.
    + vm_compute. split; discriminate.
    + reflexivity.
Defined.
(** ** The animation-frame throttle *)

Section Throttle.

Variable storageKey : string.

Lemma run_cons (e : Event) (es : list Event) (l : Loop) :
  run storageKey (e :: es) l = run storageKey es (step storageKey e l).
Proof. reflexivity. Qed.

Lemma run_app (es es' : list Event) (l : Loop) :
  run storageKey (es ++ es') l = run storageKey es' (run storageKey es l).
Proof. apply fold_left_app. Qed.

Lemma run_snoc (es : list Event) (e : Event) (l : Loop) :
  run storageKey (es ++ [e]) l = step storageKey e (run storageKey es l).
Proof. now rewrite run_app. Qed.

Lemma onScroll_runs (l : Loop) : runs (onScroll l) = runs l.
Proof. unfold onScroll. destruct (ticking l); reflexivity. Qed.

Lemma onScroll_inv (l : Loop) : throttle_inv l -> throttle_inv (onScroll l).
Proof.
  unfold throttle_inv, onScroll.
  intros [[Ht Hq]|[Ht Hq]]; rewrite Ht; cbn; right; rewrite ?Hq; auto.
Qed.

(** After [onScroll] a callback is waiting, whatever came before. *)
Lemma onScroll_pending (l : Loop) :
  throttle_inv l -> ticking (onScroll l) = true /\ raf_queue (onScroll l) = 1%nat.
Proof.
  unfold throttle_inv, onScroll.
  intros [[Ht Hq]|[Ht Hq]]; rewrite Ht; cbn; rewrite ?Hq; auto.
Qed.

Lemma with_page_inv (f : Reader -> Reader) (l : Loop) :
  throttle_inv l -> throttle_inv (with_page f l).
Proof. exact (fun H => H). Qed.

Lemma callbacks_runs (n : nat) (l : Loop) :
  runs (Nat.iter n (raf_callback storageKey) l) = (n + runs l)%nat.
Proof. induction n as [|n IH]; simpl; [reflexivity | now rewrite IH]. Qed.

Lemma callbacks_queue (n : nat) (l : Loop) :
  raf_queue (Nat.iter n (raf_callback storageKey) l) = raf_queue l.
Proof. induction n as [|n IH]; simpl; [reflexivity | exact IH]. Qed.

Lemma step_frame_runs (l : Loop) :
  runs (step storageKey Frame l) = (raf_queue l + runs l)%nat.
Proof. unfold step. now rewrite callbacks_runs. Qed.

Lemma step_input_runs (e : Event) (l : Loop) :
  is_input e -> runs (step storageKey e l) = runs l.
Proof.
  destruct e; cbn [is_input step]; intros H; try contradiction;
    now rewrite onScroll_runs.
Qed.

Lemma step_input_pending (e : Event) (l : Loop) :
  is_input e -> throttle_inv l ->
  ticking (step storageKey e l) = true /\ raf_queue (step storageKey e l) = 1%nat.
Proof.
  destruct e; cbn [is_input step]; intros H Hinv; try contradiction;
    now apply onScroll_pending, with_page_inv.
Qed.

Lemma step_inv (e : Event) (l : Loop) :
  throttle_inv l -> throttle_inv (step storageKey e l).
Proof.
  intros H. destruct e; cbn [step];
    try (apply onScroll_inv, with_page_inv; exact H).
  left. destruct H as [[Ht Hq]|[Ht Hq]]; rewrite Hq; simpl; auto.
Qed.

Lemma run_inv (es : list Event) (l : Loop) :
  throttle_inv l -> throttle_inv (run storageKey es l).
Proof.
  revert l. induction es as [|e es IH]; intros l H; [exact H|].
  rewrite run_cons. apply IH, step_inv, H.
Qed.

Lemma burst_runs (burst : list Event) (l : Loop) :
  Forall is_input burst -> runs (run storageKey burst l) = runs l.
Proof.
  intros H. revert l. induction H as [|e burst He _ IH]; intros l; [reflexivity|].
  rewrite run_cons, IH. now apply step_input_runs.
Qed.

Lemma burst_pending (burst : list Event) (l : Loop) :
  Forall is_input burst ->
  ticking l = true /\ raf_queue l = 1%nat ->
  ticking (run storageKey burst l) = true /\ raf_queue (run storageKey burst l) = 1%nat.
Proof.
  intros H. revert l. induction H as [|e burst He _ IH]; intros l Hl; [exact Hl|].
  rewrite run_cons. apply IH, step_input_pending; [exact He|].
  right. exact Hl.
Qed.

(** A burst that is not empty is not lost: the next frame runs the
    recomputation exactly once. *)
Lemma burst_then_frame_runs_once (e : Event) (burst : list Event) (l : Loop) :
  throttle_inv l -> is_input e -> Forall is_input burst ->
  runs (run storageKey (e :: burst ++ [Frame]) l) = S (runs l).
Proof.
  intros Hinv He Hb.
  rewrite run_cons, run_snoc, step_frame_runs, burst_runs by assumption.
  rewrite step_input_runs by assumption.
  destruct (burst_pending burst (step storageKey e l) Hb) as [_ Hq];
    [now apply step_input_pending|].
  now rewrite Hq.
Qed.

(** C9. From the state [init] leaves, after any history of events: a
    burst of scroll and resize events followed by the next animation
    frame runs [updateProgress] at most once, none of these runs falling
    before the frame. *)
Theorem throttle_once_per_frame (r : Reader) (history burst : list Event) :
  Forall is_input burst ->
  let l := run storageKey history (loop_init r) in
  runs (run storageKey burst l) = runs l /\
  (runs (run storageKey (burst ++ [Frame]) l) <= S (runs l))%nat.
Proof.
  intros Hb l. split; [now apply burst_runs|].
  rewrite run_snoc, step_frame_runs, burst_runs by assumption.
  assert (Hinv : throttle_inv (run storageKey burst l)).
  { apply run_inv, run_inv. left. split; reflexivity. }
  destruct Hinv as [[_ Hq]|[_ Hq]]; rewrite Hq; lia.
Qed.

End Throttle.

Lemma throttle_once_per_frame_witness :
  let r := {| localStorage := {| items := ∅; read_fails := false; write_fails := false |};
              innerHeight := 500; scrollHeight := 2000;
              rect := {| rect_y := 0; rect_height := 1000 |};
              scrollTo_log := []; bar_width := ""; percent_text := "0%" |} in
  let rc := {| rect_y := -(100); rect_height := 1000 |} in
  let l := run "k" [Scroll rc; Frame] (loop_init r) in
  runs (run "k" [Scroll rc; Resize 400 rc; Scroll rc] l) = runs l /\
  (runs (run "k" ([Scroll rc; Resize 400 rc; Scroll rc] ++ [Frame]) l) <= S (runs l))%nat.
Proof.
  cbn zeta. apply throttle_once_per_frame.
  repeat constructor.
Defined.

(** ** The last-read marker of the table of contents *)

Example setProgress_3 :
  let t := {| toc_storage := {| items := ∅; read_fails := false; write_fails := false |};
              progress := {| value_attr := None; progress_max := 30; aria_valuenow := None |};
              cards := [ {| card_index := Some "2"; data_last := Some "true" |};
                         {| card_index := Some "3"; data_last := None |} ] |} in
  exists t', setProgress (JNum (Num.of_Z 3)) t = Done t' /\
    items (toc_storage t') !! "act1-last-read" = Some "3" /\
    aria_valuenow (progress t') = Some "2" /\
    data_last <$> cards t' = [None; Some "true"].
Proof. cbn zeta. eexists. split; [reflexivity|]. repeat split; reflexivity. Qed.

(** C10. [setProgress] called with a falsy index, 0 in particular, returns
    at once: the store, the [progress] element with its value and
    [aria-valuenow], and the [data-last] marker of every card are as they
    were. *)
Theorem setProgress_falsy (index : JsVal) (t : Toc) :
  falsy index = true -> setProgress index t = Done t.
Proof. intros H. unfold setProgress. now rewrite H. Qed.

Lemma setProgress_falsy_witness :
  let t := {| toc_storage := {| items := {[ "act1-last-read" := "4" ]};
                                read_fails := false; write_fails := false |};
              progress := {| value_attr := Some 4%Q; progress_max := 30;
                             aria_valuenow := Some "4" |};
              cards := [ {| card_index := Some "4"; data_last := Some "true" |} ] |} in
  setProgress (JNum (Num.of_Z 0)) t = Done t.
Proof. cbn zeta. apply setProgress_falsy. reflexivity. Defined.

(** A card without a usable [data-index] counts as index 0, so opening it
    records nothing. *)
Lemma card_click_prologue (a : Card) (t : Toc) :
  card_number a = 0 -> card_click a t = Done t.
Proof. intros H. unfold card_click. now rewrite H. Qed.

(** ** Failures of the local store *)

(** In the reader, a refused read leaves the page as it was and a refused
    write still shows the progress. *)
Lemma restoreScroll_read_fails (key : string) (r : Reader) :
  read_fails (localStorage r) = true -> restoreScroll key r = r.
Proof.
  intros H. unfold restoreScroll, try_ignore, getItem. rewrite H. reflexivity.
Qed.

Lemma updateProgress_write_fails (key : string) (r : Reader) :
  write_fails (localStorage r) = true ->
  localStorage (updateProgress key r) = localStorage r /\
  bar_width (updateProgress key r) = percent_text (updateProgress key r).
Proof.
  intros H. unfold updateProgress, try_ignore, setItem. cbn [localStorage set_progress_ui].
  rewrite H. split; reflexivity.
Qed.

(** In the table of contents nothing catches: a refused write leaves
    [setProgress] by an exception before anything is marked, and a
    refused read leaves the start-up code the same way. *)
Lemma setProgress_write_fails (index : JsVal) (t : Toc) :
  falsy index = false -> write_fails (toc_storage t) = true ->
  setProgress index t = Raised "QuotaExceededError" t.
Proof. intros Hf Hw. unfold setProgress, setItem. now rewrite Hf, Hw. Qed.

Lemma clear_click_write_fails (t : Toc) :
  write_fails (toc_storage t) = true -> clear_click t = Raised "SecurityError" t.
Proof. intros H. unfold clear_click, removeItem. now rewrite H. Qed.

Lemma restoreLastRead_read_fails (t : Toc) :
  read_fails (toc_storage t) = true -> restoreLastRead t = Raised "SecurityError" t.
Proof. intros H. unfold restoreLastRead, getItem. now rewrite H. Qed.

(** C8 (the table-of-contents script breaks it). With a store that
    refuses writes, opening chapter 3 ends in an exception that
    [setProgress] does not catch, and the card is not marked; with a store
    that refuses reads, so does the start-up code. *)
Theorem toc_store_failure_propagates :
  let p := {| value_attr := None; progress_max := 30; aria_valuenow := None |} in
  let a := {| card_index := Some "3"; data_last := None |} in
  let full := {| toc_storage := {| items := ∅; read_fails := false; write_fails := true |};
                 progress := p; cards := [a] |} in
  let disabled := {| toc_storage := {| items := ∅; read_fails := true; write_fails := true |};
                     progress := p; cards := [a] |} in
  card_click a full = Raised "QuotaExceededError" full /\
  restoreLastRead disabled = Raised "SecurityError" disabled.
Proof. cbn zeta. split; reflexivity. Qed.

(** ** Arithmetic of the progress code *)

Lemma Qltb_lt (x y : Q) : Num.Qltb x y = true <-> (x < y)%Q.
Proof.
  unfold Num.Qltb. rewrite negb_true_iff, <- not_true_iff_false, Qle_bool_iff.
  split; [apply Qnot_le_lt | apply Qlt_not_le].
Qed.

Lemma Qltb_ge (x y : Q) : Num.Qltb x y = false <-> (y <= x)%Q.
Proof. unfold Num.Qltb. rewrite negb_false_iff. apply Qle_bool_iff. Qed.

Lemma Qltb_inject_Z (a b : Z) : Num.Qltb (inject_Z a) (inject_Z b) = (a <? b).
Proof.
  destruct (Z.ltb_spec a b) as [H|H].
  - apply Qltb_lt. now rewrite <- Zlt_Qlt.
  - apply Qltb_ge. now rewrite <- Zle_Qle.
Qed.

Lemma Math_max_Fin (x y : Q) :
  Num.Math_max (Fin x) (Fin y) = Fin (if Num.Qltb x y then y else x).
Proof. cbn. now destruct (Num.Qltb x y). Qed.

Lemma Math_min_Fin (x y : Q) :
  Num.Math_min (Fin x) (Fin y) = Fin (if Num.Qltb y x then y else x).
Proof. cbn. now destruct (Num.Qltb y x). Qed.

(** Clamping an integer between 0 and 100, as the script does it. *)
Lemma clamp_integer (z : Z) :
  Num.Math_max (Num.of_Z 0) (Num.Math_min (Num.of_Z 100) (Num.of_Z z)) =
  Num.of_Z (Z.max 0 (Z.min 100 z)).
Proof.
  unfold Num.of_Z. rewrite Math_min_Fin, Qltb_inject_Z.
  destruct (Z.ltb_spec z 100); rewrite Math_max_Fin, Qltb_inject_Z.
  - destruct (Z.ltb_spec 0 z); do 2 f_equal; lia.
  - cbn. do 2 f_equal. lia.
Qed.


Lemma to_string_of_Z (k : Z) :
  0 <= k <= max_exact -> Num.to_string (Num.of_Z k) = string_of_Z k.
Proof. intros H. apply to_string_integer. unfold max_exact in *. lia. Qed.

(** The visible height is a number, and 0 for an article of height 0. *)
Lemma visible_value (rc : DOMRect) (h : Z) :
  exists v : JsNum,
    Num.Math_max (Num.of_Z 0)
      (Num.sub (Num.Math_min (Fin (rect_bottom rc)) (Num.of_Z h))
               (Num.Math_max (Fin (rect_top rc)) (Num.of_Z 0))) = v /\
    v <> NaN /\
    ((rect_height rc == 0)%Q -> v = Num.of_Z 0).
Proof.
  unfold Num.of_Z. rewrite Math_min_Fin, Math_max_Fin. cbn [Num.sub].
  assert (Hm : ((if Num.Qltb (inject_Z h) (rect_bottom rc)
                 then inject_Z h else rect_bottom rc) <= rect_bottom rc)%Q).
  { destruct (Num.Qltb (inject_Z h) (rect_bottom rc)) eqn:E; [|apply Qle_refl].
    apply Qltb_lt in E. now apply Qlt_le_weak. }
  assert (HM : (rect_top rc <= (if Num.Qltb (rect_top rc) (inject_Z 0)
                                then inject_Z 0 else rect_top rc))%Q).
  { destruct (Num.Qltb (rect_top rc) (inject_Z 0)) eqn:E; [|apply Qle_refl].
    apply Qltb_lt in E. now apply Qlt_le_weak. }
  revert Hm HM.
  generalize (if Num.Qltb (inject_Z h) (rect_bottom rc) then inject_Z h else rect_bottom rc).
  generalize (if Num.Qltb (rect_top rc) (inject_Z 0) then inject_Z 0 else rect_top rc).
  intros M m Hm HM.
  assert (Hd : (rect_height rc == 0)%Q -> (m - M <= 0)%Q).
  { intros Hh.
    assert (Hb : (rect_bottom rc == rect_y rc)%Q).
    { unfold rect_bottom.
      destruct (Q.max_spec (rect_y rc) (rect_y rc + rect_height rc)) as [[_ ->]|[_ ->]];
        [rewrite Hh; ring | reflexivity]. }
    assert (Ht : (rect_top rc == rect_y rc)%Q).
    { unfold rect_top.
      destruct (Q.min_spec (rect_y rc) (rect_y rc + rect_height rc)) as [[_ ->]|[_ ->]];
        [reflexivity | rewrite Hh; ring]. }
    rewrite Hb in Hm. rewrite Ht in HM. lra. }
  pose proof (round_double_sign (m - M)) as Hs.
  destruct (Num.round_double (m - M)) as [| |y|]; [contradiction | | |].
  - exists (Fin (inject_Z 0)). repeat split; discriminate.
  - rewrite Math_max_Fin. eexists. split; [reflexivity|]. split; [discriminate|].
    intros Hh. destruct Hs as [_ Hs]. specialize (Hs (Hd Hh)).
    apply Qltb_ge in Hs. change (inject_Z 0) with 0%Q. now rewrite Hs.
  - exists PosInf. split; [reflexivity|]. split; [discriminate|].
    intros Hh. specialize (Hd Hh). exfalso. lra.
Qed.

(** ** Progress percentage *)

Lemma updateProgress_stored (key value : string) (r : Reader) (w t : string) :
  write_fails (localStorage r) = false ->
  items (localStorage
    (try_ignore (fun r0 =>
       st ← setItem key value (localStorage r0); Normal (set_localStorage st r0))
       (set_progress_ui w t r))) !! key = Some value.
Proof.
  intros H. unfold try_ignore, setItem. cbn [localStorage set_progress_ui].
  rewrite H. cbn. apply lookup_insert_eq.
Qed.

Lemma updateProgress_ui (key value : string) (r : Reader) :
  let r' := try_ignore (fun r0 =>
       st ← setItem key value (localStorage r0); Normal (set_localStorage st r0)) r in
  bar_width r' = bar_width r /\ percent_text r' = percent_text r.
Proof.
  unfold try_ignore, setItem. destruct (write_fails (localStorage r)); split; reflexivity.
Qed.

(** Rounding and clamping any number but [NaN] gives an integer from 0
    to 100. *)
Lemma clamp_number (x : JsNum) :
  x <> NaN ->
  exists k : Z, 0 <= k <= 100 /\
    Num.Math_max (Num.of_Z 0) (Num.Math_min (Num.of_Z 100) (Num.Math_round x)) = Num.of_Z k.
Proof.
  intros Hx. destruct x as [| |q|]; [contradiction | | |].
  - exists 0. split; [lia | reflexivity].
  - cbn [Num.Math_round]. change (Fin (inject_Z ?z)) with (Num.of_Z z).
    rewrite clamp_integer. eexists. split; [|reflexivity]. lia.
  - exists 100. split; [lia | reflexivity].
Qed.

Lemma times_100 (x : JsNum) : x <> NaN -> Num.mul x (Num.of_Z 100) <> NaN.
Proof.
  intros Hx. destruct x as [| |q|]; [contradiction | discriminate | | discriminate].
  cbn [Num.mul Num.of_Z]. pose proof (round_double_sign (q * inject_Z 100)) as H.
  intros E. now rewrite E in H.
Qed.

Lemma quotient_number (v : JsNum) (h : Q) :
  v <> NaN -> Qeq_bool h 0 = false -> Num.div v (Fin h) <> NaN.
Proof.
  intros Hv Hh. destruct v as [| |q|]; [contradiction | | |].
  - cbn [Num.div]. destruct (Num.sign (Fin h) <? 0); intros E; vm_compute in E; discriminate E.
  - cbn [Num.div]. rewrite Hh. pose proof (round_double_sign (q / h)) as H.
    intros E. now rewrite E in H.
  - cbn [Num.div]. destruct (Num.sign (Fin h) <? 0); intros E; vm_compute in E; discriminate E.
Qed.

Lemma percent_clamped (v : JsNum) (h : Q) :
  v <> NaN -> Qeq_bool h 0 = false ->
  exists k : Z, 0 <= k <= 100 /\
    Num.Math_max (Num.of_Z 0)
      (Num.Math_min (Num.of_Z 100)
         (Num.Math_round (Num.mul (Num.div v (Fin h)) (Num.of_Z 100)))) = Num.of_Z k.
Proof. intros Hv Hh. now apply clamp_number, times_100, quotient_number. Qed.

Lemma percent_NaN (h : Q) :
  Qeq_bool h 0 = true ->
  Num.Math_max (Num.of_Z 0)
    (Num.Math_min (Num.of_Z 100)
       (Num.Math_round (Num.mul (Num.div (Num.of_Z 0) (Fin h)) (Num.of_Z 100)))) = NaN.
Proof. intros Hz. unfold Num.div, Num.of_Z. rewrite Hz. reflexivity. Qed.

(** For an article of height other than 0 the percentage shown is an
    integer between 0 and 100, and the value stored is that integer over
    100. *)
Lemma updateProgress_percent (key : string) (r : Reader) :
  ~ (rect_height (rect r) == 0)%Q ->
  exists k : Z, 0 <= k <= 100 /\
    bar_width (updateProgress key r) = string_of_Z k ++ "%" /\
    percent_text (updateProgress key r) = string_of_Z k ++ "%" /\
    (write_fails (localStorage r) = false ->
     items (localStorage (updateProgress key r)) !! key =
       Some (Num.to_string (Num.div (Num.of_Z k) (Num.of_Z 100)))).
Proof.
  intros Hh. unfold updateProgress. cbn zeta.
  destruct (visible_value (rect r) (innerHeight r)) as (v & -> & Hv & _).
  assert (Hz : Qeq_bool (rect_height (rect r)) 0 = false).
  { apply not_true_iff_false. now rewrite Qeq_bool_iff. }
  destruct (percent_clamped v _ Hv Hz) as (k & Hk & ->).
  exists k. split; [exact Hk|]. rewrite to_string_of_Z by (unfold max_exact; lia).
  split; [apply updateProgress_ui|]. split; [apply updateProgress_ui|].
  intros Hw. now apply updateProgress_stored.
Qed.

(** For an article of height 0 the quotient is [0 / 0]: the label reads
    [NaN%] and [NaN] is stored. *)
Lemma updateProgress_NaN (key : string) (r : Reader) :
  (rect_height (rect r) == 0)%Q ->
  bar_width (updateProgress key r) = "NaN%" /\
  percent_text (updateProgress key r) = "NaN%" /\
  (write_fails (localStorage r) = false ->
   items (localStorage (updateProgress key r)) !! key = Some "NaN").
Proof.
  intros Hh. unfold updateProgress. cbn zeta.
  destruct (visible_value (rect r) (innerHeight r)) as (v & -> & _ & Hv).
  rewrite (Hv Hh).
  assert (Hz : Qeq_bool (rect_height (rect r)) 0 = true) by now apply Qeq_bool_iff.
  rewrite (percent_NaN _ Hz).
  split; [apply updateProgress_ui|]. split; [apply updateProgress_ui|].
  intros Hw. now apply updateProgress_stored.
Qed.


(** C4 (the code breaks it at height 0). An article laid out with height
    0 at the top of a viewport 500 high: [updateProgress] writes [NaN%]
    to the bar and the label and stores [NaN], not an integer between 0
    and 100. *)
Theorem updateProgress_zero_height :
  let r := {| localStorage := {| items := ∅; read_fails := false; write_fails := false |};
              innerHeight := 500; scrollHeight := 500;
              rect := {| rect_y := 0; rect_height := 0 |};
              scrollTo_log := []; bar_width := ""; percent_text := "0%" |} in
  bar_width (updateProgress "k" r) = "NaN%" /\
  percent_text (updateProgress "k" r) = "NaN%" /\
  items (localStorage (updateProgress "k" r)) !! "k" = Some "NaN".
Proof. cbn zeta. repeat split; reflexivity. Qed.


(** ** Restoring the scroll position *)

Lemma sub_integers (a b : Z) :
  - max_exact <= a - b <= max_exact ->
  Num.sub (Num.of_Z a) (Num.of_Z b) = Num.of_Z (a - b).
Proof.
  intros H. unfold Num.of_Z. cbn [Num.sub].
  replace (inject_Z a - inject_Z b)%Q with (inject_Z (a - b)).
  - now apply round_double_integer.
  - unfold Qminus, Qplus, Qopp, inject_Z. cbn [Qnum Qden]. f_equal. lia.
Qed.

Lemma restoreScroll_read_ok (key : string) (r : Reader) :
  read_fails (localStorage r) = false ->
  restoreScroll key r =
    match items (localStorage r) !! key with
    | Some (String _ _ as saved) =>
        let val := Num.parseFloat saved in
        if negb (Num.isNaN val) && Num.gt val (Num.of_Z 0) && Num.lt val (Num.of_Z 1) then
          scrollTo (Num.of_Z 0)
            (Num.Math_floor
               (Num.mul (Num.sub (Num.of_Z (scrollHeight r)) (Num.of_Z (innerHeight r))) val)) r
        else r
    | _ => r
    end.
Proof.
  intros H. unfold restoreScroll, try_ignore, getItem. rewrite H.
  unfold mbind, completion_bind.
  destruct (items (localStorage r) !! key) as [[|c s]|]; try reflexivity.
  cbn zeta. now destruct (_ && _ && _).
Qed.

Lemma restore_guard (v : Q) :
  negb (Num.isNaN (Fin v)) && Num.gt (Fin v) (Num.of_Z 0) && Num.lt (Fin v) (Num.of_Z 1) =
  Num.Qltb 0 v && Num.Qltb v 1.
Proof. reflexivity. Qed.

(** The offset is the floor of the product, not the product. *)
Lemma restoreScroll_floors :
  let r := {| localStorage := {| items := {[ "k" := "0.5" ]};
                                 read_fails := false; write_fails := false |};
              innerHeight := 500; scrollHeight := 2001;
              rect := {| rect_y := 0; rect_height := 1000 |};
              scrollTo_log := []; bar_width := ""; percent_text := "0%" |} in
  Num.parseFloat "0.5" = Fin (1 # 2) /\
  scrollTo_log (restoreScroll "k" r) = [(Num.of_Z 0, Num.of_Z 750)] /\
  ~ (inject_Z 750 == (1 # 2) * inject_Z (scrollHeight r - innerHeight r))%Q.
Proof.
  cbn zeta. split; [vm_compute; reflexivity|]. split; [vm_compute; reflexivity|].
  intros H. discriminate H.
Qed.

(** The product is the product of doubles: the stored text [0.29] reads
    as the double just below 0.29, and 1500 times it is the double just
    below 435. *)
Example restoreScroll_double_product :
  let r := {| localStorage := {| items := {[ "k" := "0.29" ]};
                                 read_fails := false; write_fails := false |};
              innerHeight := 500; scrollHeight := 2000;
              rect := {| rect_y := 0; rect_height := 1000 |};
              scrollTo_log := []; bar_width := ""; percent_text := "0%" |} in
  scrollTo_log (restoreScroll "k" r) = [(Num.of_Z 0, Num.of_Z 434)].
Proof. vm_compute. reflexivity. Qed.

(** A stored text that only begins with a number is read up to where
    the number ends: [0.5px] restores like [0.5]. *)
Example restoreScroll_numeric_prefix :
  let r := {| localStorage := {| items := {[ "k" := "0.5px" ]};
                                 read_fails := false; write_fails := false |};
              innerHeight := 500; scrollHeight := 2000;
              rect := {| rect_y := 0; rect_height := 1000 |};
              scrollTo_log := []; bar_width := ""; percent_text := "0%" |} in
  scrollTo_log (restoreScroll "k" r) = [(Num.of_Z 0, Num.of_Z 750)].
Proof. vm_compute. reflexivity. Qed.

(** C5 (amended). Restoring is a no-op when the store refuses the read,
    when there is no entry, when [parseFloat] does not read the entry as
    a finite number, and when it reads it as a double [v] with [v <= 0]
    or [v >= 1]; when it reads it as a double [v] with [0 < v < 1],
    [window.scrollTo] is called once, and its vertical offset is the
    floor of the product of [v] and [scrollHeight - innerHeight] as the
    script computes it, in doubles: the floor of the double nearest to
    the exact product. *)
Theorem restoreScroll_offset (key : string) (r : Reader) :
  (read_fails (localStorage r) = true \/ items (localStorage r) !! key = None ->
     restoreScroll key r = r) /\
  (forall s, read_fails (localStorage r) = false ->
     items (localStorage r) !! key = Some s ->
     match Num.parseFloat s with
     | Fin v =>
         ((v <= 0 \/ 1 <= v)%Q -> restoreScroll key r = r) /\
         ((0 < v /\ v < 1)%Q ->
            - max_exact <= scrollHeight r - innerHeight r <= max_exact ->
            restoreScroll key r =
              scrollTo (Num.of_Z 0)
                (Num.Math_floor
                   (Num.round_double (inject_Z (scrollHeight r - innerHeight r) * v))) r)
     | _ => restoreScroll key r = r
     end).
Proof.
  split.
  - intros [H|H]; [now apply restoreScroll_read_fails|].
    destruct (read_fails (localStorage r)) eqn:Hr;
      [now apply restoreScroll_read_fails|].
    rewrite restoreScroll_read_ok by assumption. now rewrite H.
  - intros s Hr Hs. rewrite restoreScroll_read_ok by assumption. rewrite Hs.
    destruct s as [|c s]; [reflexivity|]. cbn zeta.
    destruct (Num.parseFloat (String c s)) as [| |v|]; try reflexivity.
    rewrite restore_guard.
    split.
    + intros [Hv|Hv]; apply Qltb_ge in Hv; rewrite Hv;
        [reflexivity | now rewrite andb_false_r].
    + intros [H0 H1] Hd. apply Qltb_lt in H0, H1. rewrite H0, H1. cbn [andb].
      rewrite sub_integers by assumption. reflexivity.
Qed.

Lemma restoreScroll_offset_witness :
  let r := {| localStorage := {| items := {[ "k" := "0.25" ]};
                                 read_fails := false; write_fails := false |};
              innerHeight := 500; scrollHeight := 2001;
              rect := {| rect_y := 0; rect_height := 1000 |};
              scrollTo_log := []; bar_width := ""; percent_text := "0%" |} in
  restoreScroll "other" r = r /\
  restoreScroll "k" r = scrollTo (Num.of_Z 0) (Num.of_Z 375) r.
Proof.
  cbn zeta. split.
  - apply restoreScroll_offset. right. reflexivity.
  - match goal with |- restoreScroll _ ?r = _ =>
      pose proof (proj2 (restoreScroll_offset "k" r) "0.25" eq_refl eq_refl) as H
    end.
    change (Num.parseFloat "0.25") with (Fin (1 # 4)) in H.
    destruct H as [_ H]. rewrite H.
    + vm_compute. reflexivity.
    + split; reflexivity.
    + vm_compute. split; discriminate.
Defined.

(** * Further properties of the two scripts *)

(** ** Printing and parsing integers *)

Lemma digits_value_of_uint_acc (d : Decimal.uint) (acc : positive) :
  Z.pos (Pos.of_uint_acc d acc) = digits_value d (Z.pos acc).
Proof.
  revert acc. induction d; intros acc; cbn [Pos.of_uint_acc digits_value];
    [reflexivity | rewrite IHd; f_equal; lia ..].
Qed.

Lemma digits_value_of_uint (d : Decimal.uint) :
  Z.of_N (Pos.of_uint d) = digits_value d 0.
Proof.
  induction d; cbn [Pos.of_uint digits_value]; try reflexivity; try exact IHd;
    cbn [Z.of_N]; now rewrite digits_value_of_uint_acc.
Qed.

Lemma read_digits_numeral (d : Decimal.uint) (acc : Z) (count : nat) :
  Num.read_digits (NilEmpty.string_of_uint d) acc count =
    (digits_value d acc, (count + Decimal.nb_digits d)%nat, "").
Proof.
  revert acc count. induction d; intros acc count;
    cbn [NilEmpty.string_of_uint Num.read_digits digits_value Decimal.nb_digits].
  1: now rewrite Nat.add_0_r.
  all: match goal with
       | |- context [Num.digit_val ?c] =>
           let v := eval vm_compute in (Num.digit_val c) in
           change (Num.digit_val c) with v
       end; cbv iota beta; rewrite IHd, ?Z.add_0_r;
       replace (S count + Decimal.nb_digits d)%nat
         with (count + S (Decimal.nb_digits d))%nat by lia; reflexivity.
Qed.

(** A numeral of a positive number starts with a digit, so no white
    space and no sign is taken off it. *)
Lemma numeral_head (p : positive) :
  exists c s, NilEmpty.string_of_uint (Pos.to_uint p) = String c s /\
    Num.is_white c = false /\ c <> "-"%char /\ c <> "+"%char.
Proof.
  pose proof (DecimalPos.Unsigned.to_uint_nonnil p) as H.
  destruct (Pos.to_uint p); [contradiction | ..];
    cbn [NilEmpty.string_of_uint]; do 2 eexists; (split; [reflexivity|]);
    repeat split; discriminate.
Qed.

Lemma numeral_white (p : positive) (c : ascii) (s : string) :
  NilEmpty.string_of_uint (Pos.to_uint p) = String c s ->
  (forall c2, Num.is_white2 c c2 = false) /\
  (forall c2 c3, Num.is_white3 c c2 c3 = false).
Proof.
  pose proof (DecimalPos.Unsigned.to_uint_nonnil p) as H.
  destruct (Pos.to_uint p); [contradiction | ..];
    cbn [NilEmpty.string_of_uint]; intros [= <- _]; split; reflexivity.
Qed.

Lemma parseInt_numeral_pos (p : positive) :
  Num.read_digits (NilEmpty.string_of_uint (Pos.to_uint p)) 0 0 =
    (Z.pos p, Decimal.nb_digits (Pos.to_uint p), "") /\
  Decimal.nb_digits (Pos.to_uint p) <> O.
Proof.
  rewrite read_digits_numeral, <- digits_value_of_uint, DecimalPos.Unsigned.of_to.
  split; [reflexivity|].
  pose proof (DecimalPos.Unsigned.to_uint_nonnil p) as H.
  destruct (Pos.to_uint p); [contradiction | discriminate ..].
Qed.

(** [parseInt] reads back the decimal numeral of every integer from
    [-2^53] to [2^53]. *)
Lemma parseInt_string_of_Z (z : Z) :
  - max_exact <= z <= max_exact -> Num.parseInt (string_of_Z z) = Some z.
Proof.
  intros Hz. destruct z as [|p|p]; [vm_compute; reflexivity | | ].
  - rewrite string_of_Z_pos.
    destruct (numeral_head p) as (c & s & Hs & Hw & Hm & Hp).
    destruct (parseInt_numeral_pos p) as [Hd Hn].
    unfold Num.parseInt. rewrite Hs in *.
    assert (Hskip : Num.skip_white (String c s) = String c s).
    { cbn [Num.skip_white]. rewrite Hw.
      destruct (numeral_white p c s Hs) as [H2 H3].
      destruct s as [|c2 s2]; [reflexivity|]. rewrite (H2 c2).
      destruct s2 as [|c3 s3]; [reflexivity|]. now rewrite (H3 c2 c3). }
    rewrite Hskip.
    assert (Hsign : Num.read_sign (String c s) = (1, String c s)).
    { unfold Num.read_sign. destruct c as [[] [] [] [] [] [] [] []]; try reflexivity;
        exfalso; (now apply Hm) || (now apply Hp). }
    rewrite Hsign, Hd. destruct (Decimal.nb_digits _); [contradiction|].
    f_equal. rewrite Z.mul_1_l. now apply round_int_exact.
  - rewrite string_of_Z_neg, string_of_Z_pos.
    destruct (parseInt_numeral_pos p) as [Hd Hn].
    unfold Num.parseInt.
    assert (Hskip : forall s, Num.skip_white (String "-" s) = String "-" s).
    { intros [|c2 [|c3 s3]]; reflexivity. }
    rewrite Hskip.
    change (Num.read_sign (String "-" ?s)) with (-1, s). cbv beta iota.
    rewrite Hd. destruct (Decimal.nb_digits _); [contradiction|].
    f_equal. change (-1 * Z.pos p) with (Z.neg p). now apply round_int_exact.
Qed.

(** ** Chapter index of a numbered page *)

Lemma string_of_Z_nonempty (z : Z) : string_of_Z z <> "".
Proof.
  intros H. pose proof (int_of_string_of_Z z) as E. rewrite H in E. discriminate E.
Qed.

(** X1. A page whose [data-number] is the decimal numeral of an integer
    [z] from [-2^53] to [2^53] has the chapter index [z], whatever its
    type and its [id]; its storage key holds that numeral, or [prologue]
    when [z] is 0. *)
Theorem chapterIndex_numeral (a : Article) (z : Z) :
  - max_exact <= z <= max_exact ->
  dataset_number a = Some (string_of_Z z) ->
  chapterIndex a = Some z /\
  storageKey a =
    "ashbones:act1:chapter:" ++ (if z =? 0 then "prologue" else string_of_Z z) ++ ":scroll".
Proof.
  intros Hz Hn.
  assert (Hi : chapterIndex a = Some z).
  { unfold chapterIndex, dataNumber. rewrite Hn.
    destruct (string_of_Z z) as [|c s] eqn:E; [now apply string_of_Z_nonempty in E|].
    rewrite <- E, parseInt_string_of_Z by exact Hz. reflexivity. }
  split; [exact Hi|]. unfold storageKey, key_part. rewrite Hi.
  destruct z as [|p|p]; [reflexivity | |]; now rewrite to_string_integer.
Qed.

Lemma chapterIndex_numeral_witness :
  let a := {| dataset_number := Some "12"; dataset_type := Some "prologue";
              article_id := "intro" |} in
  chapterIndex a = Some 12 /\
  storageKey a = "ashbones:act1:chapter:" ++ (if 12 =? 0 then "prologue" else string_of_Z 12) ++ ":scroll".
Proof.
  cbn zeta. apply chapterIndex_numeral.
  - unfold max_exact. lia.
  - reflexivity.
Defined.

(** ** Navigation set-up, twice *)

Lemma qs_nav_found (c : string) (p : Page) (n : NavEl) :
  In n (navs_before p ++ navs_after p) -> has_class c n = true -> is_Some (qs_nav c p).
Proof.
  intros Hin Hc. unfold qs_nav.
  destruct (List.find (has_class c) (navs_before p ++ navs_after p)) as [m|] eqn:E; [eauto|].
  pose proof (find_none _ _ E n Hin) as H. congruence.
Qed.

Lemma qs_nav_In (c : string) (p : Page) (n : NavEl) :
  qs_nav c p = Some n -> In n (navs_before p ++ navs_after p) /\ has_class c n = true.
Proof. intros H. now apply find_some in H. Qed.

Lemma has_class_buildNav (position : Position) (idx : option Z) :
  has_class (position_class position) (buildNav position idx) = true.
Proof. unfold has_class. apply bool_decide_eq_true. cbn [buildNav classList]. set_solver. Qed.

Lemma injectNav_has (position : Position) (idx : option Z) (p : Page) :
  is_Some (qs_nav (position_class position) (injectNav position idx p)).
Proof.
  unfold injectNav.
  destruct (qs_nav (position_class position) p) as [n|] eqn:E; [rewrite E; eauto|].
  apply qs_nav_found with (n := buildNav position idx); [|apply has_class_buildNav].
  destruct position; cbn [navs_before navs_after]; rewrite !in_app_iff; cbn [In]; auto.
Qed.

Lemma injectNav_grows (position : Position) (idx : option Z) (p : Page) (n : NavEl) :
  In n (navs_before p ++ navs_after p) ->
  In n (navs_before (injectNav position idx p) ++ navs_after (injectNav position idx p)).
Proof.
  unfold injectNav. destruct (qs_nav (position_class position) p); [auto|].
  destruct position; cbn [navs_before navs_after]; rewrite !in_app_iff; cbn [In];
    rewrite ?in_app_iff; tauto.
Qed.

Lemma injectNav_stays (position position' : Position) (idx : option Z) (p : Page) :
  is_Some (qs_nav (position_class position') p) ->
  is_Some (qs_nav (position_class position') (injectNav position idx p)).
Proof.
  intros [n Hn]. apply qs_nav_In in Hn as [Hin Hc].
  eapply qs_nav_found; [apply injectNav_grows, Hin | exact Hc].
Qed.

Lemma make_visible_twice (n : NavEl) : make_visible (make_visible n) = make_visible n.
Proof.
  unfold make_visible. cbn [classList nav_aria_label anchors toggle links].
  f_equal. now rewrite <- (assoc_L (∪)), (idemp_L (∪)).
Qed.

Lemma has_class_make_visible (c : string) (n : NavEl) :
  has_class c n = true -> has_class c (make_visible n) = true.
Proof.
  unfold has_class. rewrite !bool_decide_eq_true. cbn [make_visible classList].
  intros H. apply elem_of_union. now left.
Qed.

Lemma is_nav_make_visible (n : NavEl) : is_nav n = true -> is_nav (make_visible n) = true.
Proof.
  unfold is_nav. rewrite !orb_true_iff. intros [H|H]; [left|right];
    now apply has_class_make_visible.
Qed.

Lemma showNavs_twice (p : Page) : showNavs (showNavs p) = showNavs p.
Proof.
  assert (H : forall l : list NavEl,
             (fun n => if is_nav n then make_visible n else n) <$>
               ((fun n => if is_nav n then make_visible n else n) <$> l) =
             (fun n => if is_nav n then make_visible n else n) <$> l).
  { intros l. rewrite <- list_fmap_compose. apply list_fmap_ext. intros _ n _.
    cbn [compose]. destruct (is_nav n) eqn:E; [|now rewrite E].
    rewrite is_nav_make_visible by exact E. apply make_visible_twice. }
  unfold showNavs. cbn [navs_before navs_after]. now rewrite !H.
Qed.

Lemma showNavs_has (c : string) (p : Page) :
  c = "chapter-top-nav" \/ c = "chapter-nav" ->
  is_Some (qs_nav c p) -> is_Some (qs_nav c (showNavs p)).
Proof.
  intros Hc [n Hn]. apply qs_nav_In in Hn as [Hin Hn].
  assert (Hnav : is_nav n = true).
  { unfold is_nav. destruct Hc as [-> | ->]; rewrite Hn; [reflexivity | apply orb_true_r]. }
  apply qs_nav_found with (n := make_visible n); [|now apply has_class_make_visible].
  unfold showNavs. cbn [navs_before navs_after]. rewrite <- fmap_app.
  change (In (make_visible n)
            ((fun n0 => if is_nav n0 then make_visible n0 else n0) <$>
               (navs_before p ++ navs_after p)%list)).
  apply in_map_iff. exists n. now rewrite Hnav.
Qed.

(** X2. The navigation set-up of [init] is idempotent: on a page it has
    already set up it inserts no further bar and changes no class. *)
Theorem init_nav_idempotent (a : Article) (p : Page) :
  init_nav a (init_nav a p) = init_nav a p.
Proof.
  unfold init_nav.
  destruct (isComments a) eqn:Ec.
  - unfold ensureNav. cbn [negb]. apply showNavs_twice.
  - assert (Hq : is_Some (qs_nav "chapter-top-nav" (ensureNav false (chapterIndex a) p))).
    { unfold ensureNav. cbn [negb].
      destruct (bool_decide (is_Some (qs_nav "chapter-top-nav" p))) eqn:E; cbn [negb].
      - now apply bool_decide_eq_true in E.
      - apply (injectNav_stays Bottom Top), (injectNav_has Top). }
    set (q := ensureNav false (chapterIndex a) p) in *.
    unfold ensureNav. cbn [negb].
    rewrite (bool_decide_eq_true_2 (is_Some (qs_nav "chapter-top-nav" (showNavs q))))
      by (apply showNavs_has; auto).
    cbn [negb]. apply showNavs_twice.
Qed.

(** X3. [injectNav] never puts a second bar of a kind on the page: once
    it has run for a position, a further run for that position, with
    whatever chapter index, changes nothing. *)
Theorem injectNav_once (position : Position) (idx idx' : option Z) (p : Page) :
  injectNav position idx' (injectNav position idx p) = injectNav position idx p.
Proof.
  destruct (injectNav_has position idx p) as [n Hn].
  unfold injectNav at 1. now rewrite Hn.
Qed.

Lemma classList_toggle_thrice (token : string) (b : bool) (cl : gset string) :
  classList_toggle token b (classList_toggle token (negb b) (classList_toggle token b cl)) =
    classList_toggle token b cl.
Proof.
  unfold classList_toggle. apply set_eq. intros x.
  destruct (decide (x ∈ ({[ token ]} : gset string))) as [H|H];
    destruct b; cbn [negb];
    rewrite ?elem_of_difference, ?elem_of_union, ?elem_of_difference, ?elem_of_union; tauto.
Qed.

(** X4. Whatever the markup of a collapsible bar says at first, one
    activation of its toggle makes [aria-expanded] and the two classes
    agree, and from then on the activations alternate between two states:
    the third brings back what the first gave.  The anchors and the label
    of the bar are never touched. *)
Theorem toggle_click_settles (navEl : NavEl) :
  consistent (toggle_click navEl) /\
  toggle_click (toggle_click (toggle_click navEl)) = toggle_click navEl /\
  anchors (toggle_click navEl) = anchors navEl /\
  nav_aria_label (toggle_click navEl) = nav_aria_label navEl.
Proof.
  split; [apply toggle_click_consistent|].
  destruct navEl as [cl lbl an [attr|] [lc|]]; try (repeat split; reflexivity).
  split; [|split; reflexivity].
  unfold toggle_click. cbn [toggle links classList nav_aria_label anchors].
  destruct (bool_decide (attr = Some "true")); cbn [negb string_of_bool];
    rewrite ?bool_decide_eq_true_2, ?bool_decide_eq_false_2 by (reflexivity || discriminate);
    cbn [negb string_of_bool];
    rewrite ?bool_decide_eq_true_2, ?bool_decide_eq_false_2 by (reflexivity || discriminate);
    cbn [negb string_of_bool].
  - now rewrite (classList_toggle_thrice "is-open" false),
      (classList_toggle_thrice "is-expanded" false).
  - now rewrite (classList_toggle_thrice "is-open" true),
      (classList_toggle_thrice "is-expanded" true).
Qed.

(** ** Progress: what is shown, what is stored, what a reload restores *)

Lemma updateProgress_unfold (key : string) (r : Reader) :
  updateProgress key r =
    let c := clamped_percent (rect r) (innerHeight r) in
    try_ignore (fun r0 =>
      st ← setItem key (Num.to_string (Num.div c (Num.of_Z 100))) (localStorage r0);
      Normal (set_localStorage st r0))
      (set_progress_ui (Num.to_string c ++ "%") (Num.to_string c ++ "%") r).
Proof. unfold updateProgress, clamped_percent. cbv zeta. reflexivity. Qed.

(** [updateProgress] leaves the geometry, the scroll log and the
    behaviour of the store as they are, and every entry of the store but
    its own. *)
Lemma updateProgress_frame (key : string) (r : Reader) :
  rect (updateProgress key r) = rect r /\
  innerHeight (updateProgress key r) = innerHeight r /\
  scrollHeight (updateProgress key r) = scrollHeight r /\
  scrollTo_log (updateProgress key r) = scrollTo_log r /\
  read_fails (localStorage (updateProgress key r)) = read_fails (localStorage r) /\
  write_fails (localStorage (updateProgress key r)) = write_fails (localStorage r) /\
  (forall k, k <> key ->
     items (localStorage (updateProgress key r)) !! k = items (localStorage r) !! k).
Proof.
  rewrite updateProgress_unfold. cbn zeta.
  generalize (clamped_percent (rect r) (innerHeight r)). intros c.
  generalize (Num.to_string (Num.div c (Num.of_Z 100))) (Num.to_string c ++ "%").
  intros v w. unfold try_ignore, setItem. cbn [localStorage set_progress_ui].
  destruct (write_fails (localStorage r)) eqn:Hw;
    cbn [mbind completion_bind set_localStorage set_progress_ui rect innerHeight scrollHeight
         scrollTo_log localStorage read_fails write_fails items];
    repeat split; try assumption.
  intros k Hk. now apply lookup_insert_ne.
Qed.

(** X5. Recomputing the progress a second time on the same geometry
    changes nothing. *)
Theorem updateProgress_idempotent (key : string) (r : Reader) :
  updateProgress key (updateProgress key r) = updateProgress key r.
Proof.
  destruct (updateProgress_frame key r) as (Hrc & Hih & _).
  rewrite (updateProgress_unfold key (updateProgress key r)), Hrc, Hih.
  rewrite (updateProgress_unfold key r). cbn zeta.
  generalize (clamped_percent (rect r) (innerHeight r)). intros c.
  generalize (Num.to_string (Num.div c (Num.of_Z 100))) (Num.to_string c ++ "%").
  intros v w. unfold try_ignore, setItem. cbn [localStorage set_progress_ui].
  destruct (write_fails (localStorage r)) eqn:Hw;
    cbn [mbind completion_bind set_localStorage set_progress_ui localStorage
         read_fails write_fails items];
    rewrite ?Hw;
    cbn [mbind completion_bind set_localStorage set_progress_ui localStorage
         read_fails write_fails items rect innerHeight scrollHeight scrollTo_log
         bar_width percent_text];
    [reflexivity|].
  now rewrite insert_insert_eq.
Qed.

(** X6. Whatever the geometry, [updateProgress] writes the same text to
    the width of the bar and to the label: [NaN%] when the article has
    height 0, and otherwise an integer from 0 to 100 followed by the
    percent sign. *)
Theorem updateProgress_shows (key : string) (r : Reader) :
  bar_width (updateProgress key r) = percent_text (updateProgress key r) /\
  ((rect_height (rect r) == 0)%Q -> percent_text (updateProgress key r) = "NaN%") /\
  (~ (rect_height (rect r) == 0)%Q ->
   exists k : Z, 0 <= k <= 100 /\ percent_text (updateProgress key r) = string_of_Z k ++ "%").
Proof.
  split; [|split].
  - destruct (Qeq_dec (rect_height (rect r)) 0) as [H|H].
    + destruct (updateProgress_NaN key r H) as (-> & -> & _). reflexivity.
    + destruct (updateProgress_percent key r H) as (k & _ & -> & -> & _). reflexivity.
  - intros H. now destruct (updateProgress_NaN key r H) as (_ & -> & _).
  - intros H. destruct (updateProgress_percent key r H) as (k & Hk & _ & -> & _). eauto.
Qed.

Lemma updateProgress_shows_witness :
  let r := {| localStorage := {| items := ∅; read_fails := false; write_fails := true |};
              innerHeight := 500; scrollHeight := 2000;
              rect := {| rect_y := -(710); rect_height := 1000 |};
              scrollTo_log := []; bar_width := ""; percent_text := "0%" |} in
  exists k : Z, 0 <= k <= 100 /\ percent_text (updateProgress "k" r) = string_of_Z k ++ "%".
Proof.
  cbn zeta.
  match goal with |- context [updateProgress _ ?r] =>
    apply (proj2 (proj2 (updateProgress_shows "k" r)))
  end.
  intros H. discriminate H.
Defined.


Lemma num_eqb_eq (a b : JsNum) : num_eqb a b = true -> a = b.
Proof.
  destruct a as [| |[n d]|], b as [| |[m e]|]; try discriminate; try reflexivity.
  cbn. intros [H1 H2]%andb_true_iff.
  apply Z.eqb_eq in H1. apply Pos.eqb_eq in H2. now subst.
Qed.

Lemma reload_checked (k : Z) : 0 <= k <= 100 -> reload_check k = true.
Proof.
  intros Hk.
  assert (H : forallb (fun i => reload_check (Z.of_nat i)) (seq 0 101) = true)
    by (vm_compute; reflexivity).
  rewrite forallb_forall in H. specialize (H (Z.to_nat k)).
  rewrite Z2Nat.id in H by lia. apply H, in_seq. lia.
Qed.

(** The text stored for a percentage reads back as the double stored. *)
Lemma hundredth_round_trip (k : Z) :
  0 <= k <= 100 ->
  Num.parseFloat (Num.to_string (hundredth k)) = hundredth k /\
  Num.to_string (hundredth k) <> "".
Proof.
  intros Hk. pose proof (reload_checked k Hk) as H. unfold reload_check in H.
  cbv zeta in H. apply andb_true_iff in H as [H _].
  apply andb_true_iff in H as [H1 H2]. split; [now apply num_eqb_eq|].
  intros E. rewrite E in H1. discriminate H1.
Qed.

(** X8. After [updateProgress] on an article of height other than 0, with
    a store that takes reads and writes, [restoreScroll] on the same key
    (what the next load of the page does) finds the percentage [k] that
    was shown: for [k] strictly between 0 and 100 it scrolls to the floor
    of the product of the scrollable height and the double [k / 100]; for
    0 and for 100 it does nothing. *)
Theorem progress_reload (key : string) (r : Reader) :
  ~ (rect_height (rect r) == 0)%Q ->
  read_fails (localStorage r) = false ->
  write_fails (localStorage r) = false ->
  exists k : Z, 0 <= k <= 100 /\
    percent_text (updateProgress key r) = string_of_Z k ++ "%" /\
    restoreScroll key (updateProgress key r) =
      if (0 <? k) && (k <? 100) then
        scrollTo (Num.of_Z 0)
          (Num.Math_floor
             (Num.mul (Num.sub (Num.of_Z (scrollHeight r)) (Num.of_Z (innerHeight r)))
                      (hundredth k)))
          (updateProgress key r)
      else updateProgress key r.
Proof.
  intros Hh Hr Hw.
  destruct (updateProgress_percent key r Hh) as (k & Hk & _ & Ht & Hs).
  specialize (Hs Hw). exists k. split; [exact Hk|]. split; [exact Ht|].
  destruct (updateProgress_frame key r) as (_ & Hih & Hsh & _ & Hrf & _).
  rewrite restoreScroll_read_ok by (now rewrite Hrf).
  fold (hundredth k) in Hs. rewrite Hs, Hih, Hsh.
  destruct (hundredth_round_trip k Hk) as [Hp Hne].
  pose proof (reload_checked k Hk) as Hc. unfold reload_check in Hc. cbv zeta in Hc.
  apply andb_true_iff in Hc as [_ Hc]. apply eqb_prop in Hc.
  destruct (Num.to_string (hundredth k)) as [|c s] eqn:Es; [contradiction|].
  cbv zeta. rewrite Hp, Hc. reflexivity.
Qed.

Lemma progress_reload_witness :
  let r := {| localStorage := {| items := ∅; read_fails := false; write_fails := false |};
              innerHeight := 500; scrollHeight := 2000;
              rect := {| rect_y := -(710); rect_height := 1000 |};
              scrollTo_log := []; bar_width := ""; percent_text := "0%" |} in
  exists k : Z, 0 <= k <= 100 /\
    percent_text (updateProgress "k" r) = string_of_Z k ++ "%" /\
    restoreScroll "k" (updateProgress "k" r) =
      if (0 <? k) && (k <? 100) then
        scrollTo (Num.of_Z 0)
          (Num.Math_floor
             (Num.mul (Num.sub (Num.of_Z (scrollHeight r)) (Num.of_Z (innerHeight r)))
                      (hundredth k)))
          (updateProgress "k" r)
      else updateProgress "k" r.
Proof.
  cbn zeta. apply progress_reload.
  - intros H. discriminate H.
  - reflexivity.
  - reflexivity.
Defined.

Example progress_reload_29 :
  let r := {| localStorage := {| items := ∅; read_fails := false; write_fails := false |};
              innerHeight := 500; scrollHeight := 2000;
              rect := {| rect_y := -(710); rect_height := 1000 |};
              scrollTo_log := []; bar_width := ""; percent_text := "0%" |} in
  percent_text (updateProgress "k" r) = "29%" /\
  scrollTo_log (restoreScroll "k" (updateProgress "k" r)) = [(Num.of_Z 0, Num.of_Z 434)].
Proof. vm_compute. split; reflexivity. Qed.

(** ** What a frame does *)

Lemma burst_page_runs (key : string) (burst : list Event) (l : Loop) :
  throttle_inv l -> Forall is_input burst -> burst <> [] ->
  ticking (run key burst l) = true /\ raf_queue (run key burst l) = 1%nat /\
  runs (run key burst l) = runs l.
Proof.
  intros Hinv Hb Hne. destruct Hb as [|e burst He Hb]; [contradiction|].
  rewrite run_cons.
  destruct (burst_pending key burst (step key e l) Hb) as [Ht Hq];
    [now apply step_input_pending|].
  rewrite burst_runs, step_input_runs by assumption. auto.
Qed.

(** X9. After a burst of scroll and resize events that is not empty, the
    next animation frame runs [updateProgress] once, on the page as the
    last event of the burst left it, and releases the throttle; a frame
    that follows without an event in between changes nothing. *)
Theorem throttle_frame_effect (key : string) (burst : list Event) (l : Loop) :
  throttle_inv l -> Forall is_input burst -> burst <> [] ->
  run key (burst ++ [Frame]) l =
    {| ticking := false; raf_queue := 0; runs := S (runs l);
       page := updateProgress key (page (run key burst l)) |} /\
  run key (burst ++ [Frame; Frame]) l = run key (burst ++ [Frame]) l.
Proof.
  intros Hinv Hb Hne.
  destruct (burst_page_runs key burst l Hinv Hb Hne) as (Ht & Hq & Hr).
  assert (H1 : run key (burst ++ [Frame]) l =
               {| ticking := false; raf_queue := 0; runs := S (runs l);
                  page := updateProgress key (page (run key burst l)) |}).
  { rewrite run_snoc. unfold step. rewrite Hq, Hr. reflexivity. }
  split; [exact H1|].
  change [Frame; Frame] with ([Frame] ++ [Frame])%list.
  rewrite app_assoc, run_snoc, H1. reflexivity.
Qed.

Lemma throttle_frame_effect_witness :
  let r := {| localStorage := {| items := ∅; read_fails := false; write_fails := false |};
              innerHeight := 500; scrollHeight := 2000;
              rect := {| rect_y := 0; rect_height := 1000 |};
              scrollTo_log := []; bar_width := ""; percent_text := "0%" |} in
  let rc := {| rect_y := -(100); rect_height := 1000 |} in
  let burst := [Scroll rc; Resize 400 rc] in
  run "k" (burst ++ [Frame]) (loop_init r) =
    {| ticking := false; raf_queue := 0; runs := S (runs (loop_init r));
       page := updateProgress "k" (page (run "k" burst (loop_init r))) |} /\
  run "k" (burst ++ [Frame; Frame]) (loop_init r) = run "k" (burst ++ [Frame]) (loop_init r).
Proof.
  cbn zeta. apply throttle_frame_effect.
  - left. split; reflexivity.
  - repeat constructor.
  - discriminate.
Defined.

(** ** Keyboard shortcuts *)

Lemma includes_digits (d : Decimal.uint) (t : string) :
  Str.includes t "line1-patreonreader.html" = false ->
  Str.includes (NilEmpty.string_of_uint d ++ t) "line1-patreonreader.html" = false.
Proof. intros Ht. induction d; [exact Ht | exact IHd ..]. Qed.

Lemma includes_numeral (d : Decimal.uint) (t : string) :
  Str.includes t "line1-patreonreader.html" = false ->
  Str.includes (NilZero.string_of_uint d ++ t) "line1-patreonreader.html" = false.
Proof.
  intros Ht. destruct d; [exact Ht | apply (includes_digits _ t Ht) ..].
Qed.

Lemma chapter_path_not_toc (n : Z) :
  Str.includes (chapter_path n) "line1-patreonreader.html" = false.
Proof.
  unfold chapter_path, string_of_Z.
  assert (Ht : Str.includes ".html" "line1-patreonreader.html" = false) by reflexivity.
  destruct (Z.to_int n) as [d|d]; cbn [NilZero.string_of_int];
    apply (includes_numeral d) in Ht; exact Ht.
Qed.

Lemma is_nav_injected (position : Position) (idx : option Z) :
  is_nav (make_visible (buildNav position idx)) = true.
Proof.
  apply is_nav_make_visible. unfold is_nav.
  pose proof (has_class_buildNav position idx) as H.
  destruct position; cbn [position_class] in H; rewrite H; [reflexivity | apply orb_true_r].
Qed.

Lemma qs_anchor_fresh (test : Anchor -> bool) (a : Article) :
  isComments a = false ->
  qs_anchor test (init_nav a {| navs_before := []; navs_after := [] |}) =
    List.find test
      (anchors (buildNav Top (chapterIndex a)) ++ anchors (buildNav Bottom (chapterIndex a))).
Proof.
  intros Hc. rewrite init_nav_fresh by exact Hc.
  unfold qs_anchor. cbn [navs_before navs_after app List.filter].
  rewrite !is_nav_injected. cbn [fmap list_fmap concat make_visible anchors].
  now rewrite app_nil_r.
Qed.

(** X10. On a chapter page without navigation bars of its own, numbered
    [n] with [1 <= n < 2^53], once [init] has set up the bars: outside a
    form field the key [n] leads to the chapter [n + 1], the key [p] to
    the chapter [n - 1] if [n] is at least 2 and nowhere on the chapter 1,
    the key [t] to the table of contents; any other key, and any key
    typed in a form field, leads nowhere. *)
Theorem keydown_numbered (a : Article) (n : Z) (e : KeyEvent) :
  isComments a = false -> chapterIndex a = Some n -> 1 <= n < max_exact ->
  keydown e (init_nav a {| navs_before := []; navs_after := [] |}) =
    if is_form_field (target_tagName e) then None
    else if String.eqb (key e) "n" then Some (chapter_path (n + 1))
    else if String.eqb (key e) "p" then
      (if 2 <=? n then Some (chapter_path (n - 1)) else None)
    else if String.eqb (key e) "t" then Some toc_path
    else None.
Proof.
  intros Hc Hi Hn. unfold keydown. rewrite !qs_anchor_fresh by exact Hc.
  rewrite Hi. cbn [buildNav anchors].
  rewrite nextAnchor_next by exact Hn.
  destruct (is_form_field (target_tagName e)); [reflexivity|].
  destruct (Z.leb_spec 2 n) as [H2|H2].
  - rewrite prevAnchor_prev by (unfold max_exact in *; lia).
    pose proof (chapter_path_not_toc (n - 1)) as Hp.
    destruct (String.eqb (key e) "n"); [reflexivity|].
    destruct (String.eqb (key e) "p"); [reflexivity|].
    destruct (String.eqb (key e) "t"); [|reflexivity].
    cbn [app List.find prev_link href]. rewrite Hp. reflexivity.
  - rewrite prevAnchor_toc by (right; exists n; split; [reflexivity | lia]).
    destruct (String.eqb (key e) "n"); [reflexivity|].
    destruct (String.eqb (key e) "p"); [reflexivity|].
    destruct (String.eqb (key e) "t"); reflexivity.
Qed.

Lemma keydown_numbered_witness :
  let a := {| dataset_number := Some "7"; dataset_type := None; article_id := "ch7" |} in
  let e := {| key := "p"; target_tagName := Some "BODY" |} in
  keydown e (init_nav a {| navs_before := []; navs_after := [] |}) =
    if is_form_field (target_tagName e) then None
    else if String.eqb (key e) "n" then Some (chapter_path (7 + 1))
    else if String.eqb (key e) "p" then
      (if 2 <=? 7 then Some (chapter_path (7 - 1)) else None)
    else if String.eqb (key e) "t" then Some toc_path
    else None.
Proof.
  cbn zeta. apply keydown_numbered.
  - reflexivity.
  - reflexivity.
  - unfold max_exact. lia.
Defined.

(** X11. On the prologue, and on a page that has neither a number nor the
    marks of the prologue, the synthesised bars hold no previous and no
    next link: the keys [n] and [p] lead nowhere, and [t] leads to the
    table of contents. *)
Theorem keydown_unnumbered (a : Article) (e : KeyEvent) :
  isComments a = false -> chapterIndex a = Some 0 \/ chapterIndex a = None ->
  keydown e (init_nav a {| navs_before := []; navs_after := [] |}) =
    if negb (is_form_field (target_tagName e)) && String.eqb (key e) "t"
    then Some toc_path else None.
Proof.
  intros Hc Hi. unfold keydown. rewrite !qs_anchor_fresh by exact Hc.
  destruct (is_form_field (target_tagName e)); [reflexivity|].
  destruct Hi as [-> | ->].
  all: destruct (String.eqb (key e) "n") eqn:En;
    [apply String.eqb_eq in En; rewrite En; reflexivity|].
  all: destruct (String.eqb (key e) "p") eqn:Ep;
    [apply String.eqb_eq in Ep; rewrite Ep; reflexivity|].
  all: destruct (String.eqb (key e) "t"); reflexivity.
Qed.

Lemma keydown_unnumbered_witness :
  let a := {| dataset_number := None; dataset_type := Some "prologue"; article_id := "" |} in
  let e := {| key := "n"; target_tagName := None |} in
  keydown e (init_nav a {| navs_before := []; navs_after := [] |}) =
    if negb (is_form_field (target_tagName e)) && String.eqb (key e) "t"
    then Some toc_path else None.
Proof.
  cbn zeta. apply keydown_unnumbered.
  - reflexivity.
  - left. reflexivity.
Defined.

(** ** The last-read marker: effect, uniqueness, reload *)

Lemma falsy_integer (z : Z) : falsy (JNum (Num.of_Z z)) = (z =? 0).
Proof.
  unfold falsy, Num.of_Z. destruct (Z.eqb_spec z 0) as [->|H]; [reflexivity|].
  apply not_true_iff_false. rewrite Qeq_bool_iff. unfold Qeq. cbn. lia.
Qed.

Lemma strict_eq_Z_integer (n z : Z) : strict_eq_Z n (JNum (Num.of_Z z)) = (n =? z).
Proof.
  unfold strict_eq_Z, Num.of_Z. destruct (Z.eqb_spec n z) as [->|H].
  - apply Qeq_bool_refl.
  - apply not_true_iff_false. rewrite Qeq_bool_iff, inject_Z_injective. exact H.
Qed.

Lemma Math_min_integer (a b : Z) :
  Num.Math_min (Num.of_Z a) (Num.of_Z b) = Num.of_Z (Z.min a b).
Proof.
  unfold Num.of_Z. rewrite Math_min_Fin, Qltb_inject_Z.
  destruct (Z.ltb_spec b a); do 2 f_equal; lia.
Qed.

(** What [setProgress] does with a non-zero integer when the store takes
    the write. *)
Lemma setProgress_integer (z : Z) (t : Toc) :
  z <> 0 -> - max_exact <= z <= max_exact -> write_fails (toc_storage t) = false ->
  setProgress (JNum (Num.of_Z z)) t =
    Done {| toc_storage :=
              {| items := <["act1-last-read" := string_of_Z z]> (items (toc_storage t));
                 read_fails := read_fails (toc_storage t);
                 write_fails := write_fails (toc_storage t) |};
            progress :=
              let p := {| value_attr := Some (inject_Z (Z.min (Z.of_nat (length (cards t))) z));
                          progress_max := progress_max (progress t);
                          aria_valuenow := aria_valuenow (progress t) |} in
              set_aria_valuenow (Num.to_string (Fin (progress_value p))) p;
            cards := markFirst (JNum (Num.of_Z z)) (removeLast <$> cards t) |}.
Proof.
  intros Hz Hr Hw. unfold setProgress. rewrite falsy_integer.
  destruct (Z.eqb_spec z 0); [contradiction|].
  unfold setItem. rewrite Hw. cbn [ToString ToNumber].
  rewrite to_string_integer, Math_min_integer by assumption. reflexivity.
Qed.

Lemma markFirst_removeLast (index : JsVal) (l : list Card) :
  removeLast <$> markFirst index l = removeLast <$> l.
Proof.
  induction l as [|a l IH]; [reflexivity|]. cbn [markFirst].
  destruct (strict_eq_Z (card_number a) index); cbn; [reflexivity | now rewrite IH].
Qed.

Lemma removeLast_removeLast (l : list Card) :
  removeLast <$> (removeLast <$> l) = removeLast <$> l.
Proof. rewrite <- list_fmap_compose. reflexivity. Qed.

Lemma markFirst_length (index : JsVal) (l : list Card) :
  length (markFirst index l) = length l.
Proof.
  induction l as [|a l IH]; [reflexivity|]. cbn [markFirst].
  destruct (strict_eq_Z (card_number a) index); cbn; [reflexivity | now rewrite IH].
Qed.

Lemma marked_removeLast (l : list Card) :
  List.filter marked (removeLast <$> l) = [].
Proof. induction l as [|a l IH]; [reflexivity|]. cbn. exact IH. Qed.

(** After [markFirst] on cards without a marker: the marked cards are the
    first card of that index, if there is one. *)
Lemma markFirst_marked (z : Z) (l : list Card) :
  List.filter marked (markFirst (JNum (Num.of_Z z)) (removeLast <$> l)) =
    match List.find (fun a => card_number a =? z) l with
    | Some a => [setLast a]
    | None => []
    end.
Proof.
  induction l as [|a l IH]; [reflexivity|].
  cbn [fmap list_fmap markFirst List.find].
  change (card_number (removeLast a)) with (card_number a).
  rewrite strict_eq_Z_integer. destruct (card_number a =? z).
  - cbn [List.filter]. change (marked (setLast (removeLast a))) with true.
    cbn iota. fold (fmap removeLast l). now rewrite marked_removeLast.
  - cbn [List.filter]. change (marked (removeLast a)) with false. cbn iota.
    exact IH.
Qed.

(** X12. Recording a non-zero integer index on a store that takes the
    write returns normally; the numeral of the index is stored under
    [act1-last-read] and no other entry changes; the [value] of the
    progress element is set to the smaller of the index and the number
    of cards; the cards keep their order and their [data-index]; and the
    marked cards are exactly the first card of that index, or none when
    no card has it. *)
Theorem setProgress_effect (z : Z) (t : Toc) :
  z <> 0 -> - max_exact <= z <= max_exact -> write_fails (toc_storage t) = false ->
  exists t', setProgress (JNum (Num.of_Z z)) t = Done t' /\
    items (toc_storage t') !! "act1-last-read" = Some (string_of_Z z) /\
    (forall k, k <> "act1-last-read" ->
       items (toc_storage t') !! k = items (toc_storage t) !! k) /\
    value_attr (progress t') = Some (inject_Z (Z.min (Z.of_nat (length (cards t))) z)) /\
    card_index <$> cards t' = card_index <$> cards t /\
    List.filter marked (cards t') =
      match List.find (fun a => card_number a =? z) (cards t) with
      | Some a => [setLast a]
      | None => []
      end.
Proof.
  intros Hz Hr Hw. eexists. split; [now apply setProgress_integer|].
  cbn [toc_storage items progress cards value_attr set_aria_valuenow].
  split; [apply lookup_insert_eq|].
  split; [intros k Hk; now apply lookup_insert_ne|].
  split; [reflexivity|]. split; [|apply markFirst_marked].
  transitivity (card_index <$> (removeLast <$> markFirst (JNum (Num.of_Z z)) (removeLast <$> cards t))).
  - rewrite <- list_fmap_compose. reflexivity.
  - rewrite markFirst_removeLast, removeLast_removeLast, <- list_fmap_compose. reflexivity.
Qed.

Lemma setProgress_effect_witness :
  let t := {| toc_storage := {| items := {[ "other" := "x" ]};
                                read_fails := false; write_fails := false |};
              progress := {| value_attr := None; progress_max := 30; aria_valuenow := None |};
              cards := [ {| card_index := Some "1"; data_last := Some "true" |};
                         {| card_index := Some "2"; data_last := None |};
                         {| card_index := Some "2"; data_last := None |} ] |} in
  exists t', setProgress (JNum (Num.of_Z 2)) t = Done t' /\
    items (toc_storage t') !! "act1-last-read" = Some "2" /\
    data_last <$> cards t' = [None; Some "true"; None].
Proof.
  cbn zeta.
  match goal with |- context [setProgress _ ?t] =>
    destruct (setProgress_effect 2 t) as (t' & H & Hs & _);
      [lia | unfold max_exact; lia | reflexivity |]
  end.
  exists t'. split; [exact H|]. split; [exact Hs|].
  vm_compute in H. injection H as <-. reflexivity.
Defined.

(** X13. Recording the same index a second time changes nothing. *)
Theorem setProgress_idempotent (z : Z) (t t' : Toc) :
  - max_exact <= z <= max_exact ->
  write_fails (toc_storage t) = false ->
  setProgress (JNum (Num.of_Z z)) t = Done t' ->
  setProgress (JNum (Num.of_Z z)) t' = Done t'.
Proof.
  intros Hr Hw H. destruct (Z.eq_dec z 0) as [->|Hz].
  - reflexivity.
  - rewrite setProgress_integer in H by assumption. injection H as <-.
    rewrite setProgress_integer by assumption.
    cbn [toc_storage items read_fails write_fails progress cards
         progress_max aria_valuenow set_aria_valuenow].
    rewrite insert_insert_eq, markFirst_removeLast, removeLast_removeLast.
    rewrite markFirst_length, length_fmap. reflexivity.
Qed.

Lemma setProgress_idempotent_witness :
  let t := {| toc_storage := {| items := ∅; read_fails := false; write_fails := false |};
              progress := {| value_attr := None; progress_max := 30; aria_valuenow := None |};
              cards := [ {| card_index := Some "1"; data_last := None |};
                         {| card_index := Some "2"; data_last := None |} ] |} in
  let t' := {| toc_storage := {| items := {[ "act1-last-read" := "2" ]};
                                 read_fails := false; write_fails := false |};
               progress := {| value_attr := Some 2%Q; progress_max := 30;
                              aria_valuenow := Some "2" |};
               cards := [ {| card_index := Some "1"; data_last := None |};
                          {| card_index := Some "2"; data_last := Some "true" |} ] |} in
  setProgress (JNum (Num.of_Z 2)) t = Done t' /\
  setProgress (JNum (Num.of_Z 2)) t' = Done t'.
Proof.
  cbn zeta. split; [vm_compute; reflexivity|].
  match goal with |- setProgress _ ?t' = _ =>
    apply (setProgress_idempotent 2
             {| toc_storage := {| items := ∅; read_fails := false; write_fails := false |};
                progress := {| value_attr := None; progress_max := 30; aria_valuenow := None |};
                cards := [ {| card_index := Some "1"; data_last := None |};
                           {| card_index := Some "2"; data_last := None |} ] |} t')
  end.
  - unfold max_exact. lia.
  - reflexivity.
  - vm_compute. reflexivity.
Defined.

(** X14. A page loaded with the store another page left reads the numeral
    back: when the entry is the decimal numeral of an integer [z] from
    [-2^53] to [2^53] and the store takes reads, the start-up code does
    exactly what [setProgress(z)] does; without an entry it does
    nothing. *)
Theorem restoreLastRead_round_trip (t : Toc) :
  read_fails (toc_storage t) = false ->
  (forall z, - max_exact <= z <= max_exact ->
     items (toc_storage t) !! "act1-last-read" = Some (string_of_Z z) ->
     restoreLastRead t = setProgress (JNum (Num.of_Z z)) t) /\
  (items (toc_storage t) !! "act1-last-read" = None -> restoreLastRead t = Done t).
Proof.
  intros Hr. unfold restoreLastRead, getItem. rewrite Hr. split.
  - intros z Hz ->. cbn [from_option id]. now rewrite parseInt_string_of_Z.
  - intros ->. reflexivity.
Qed.

Lemma restoreLastRead_round_trip_witness :
  let t := {| toc_storage := {| items := {[ "act1-last-read" := "12" ]};
                                read_fails := false; write_fails := false |};
              progress := {| value_attr := None; progress_max := 30; aria_valuenow := None |};
              cards := [ {| card_index := Some "12"; data_last := None |} ] |} in
  restoreLastRead t = setProgress (JNum (Num.of_Z 12)) t.
Proof.
  cbn zeta.
  match goal with |- restoreLastRead ?t = _ =>
    apply (proj1 (restoreLastRead_round_trip t eq_refl) 12)
  end.
  - unfold max_exact. lia.
  - reflexivity.
Defined.

(** X15. Clearing on a store that takes the write removes the entry,
    leaves no card marked, sets [aria-valuenow] to 0, and a page loaded
    afterwards restores nothing. *)
Theorem clear_click_effect (t : Toc) :
  write_fails (toc_storage t) = false ->
  exists t', clear_click t = Done t' /\
    items (toc_storage t') !! "act1-last-read" = None /\
    List.filter marked (cards t') = [] /\
    data_last <$> cards t' = (fun _ => None) <$> cards t /\
    aria_valuenow (progress t') = Some "0" /\
    (read_fails (toc_storage t) = false -> restoreLastRead t' = Done t').
Proof.
  intros Hw. unfold clear_click, removeItem. rewrite Hw.
  cbn [set_progress_value Num.of_Z]. eexists. split; [reflexivity|].
  cbn [toc_storage items cards progress aria_valuenow set_aria_valuenow read_fails].
  split; [apply lookup_delete_eq|]. split; [apply marked_removeLast|].
  split; [rewrite <- list_fmap_compose; reflexivity|]. split; [reflexivity|].
  intros Hr. unfold restoreLastRead, getItem. cbn [toc_storage read_fails items].
  rewrite Hr, lookup_delete_eq. reflexivity.
Qed.

Lemma clear_click_effect_witness :
  let t := {| toc_storage := {| items := {[ "act1-last-read" := "12" ]};
                                read_fails := false; write_fails := false |};
              progress := {| value_attr := Some 12%Q; progress_max := 30;
                             aria_valuenow := Some "12" |};
              cards := [ {| card_index := Some "12"; data_last := Some "true" |} ] |} in
  exists t', clear_click t = Done t' /\ List.filter marked (cards t') = [].
Proof.
  cbn zeta.
  match goal with |- context [clear_click ?t] =>
    destruct (clear_click_effect t eq_refl) as (t' & H & _ & Hm & _)
  end.
  exists t'. split; assumption.
Defined.

(** ** Search and count of the table of contents *)

Lemma fold_show_snoc (term : string) (l : list TocCard) (a : TocCard) (d : gmap nat string) :
  fold_left (show_card term) (l ++ [a]) d = show_card term (fold_left (show_card term) l d) a.
Proof. now rewrite fold_left_app. Qed.

(** The display of an element after the loop of [filter]: that written
    by the loop if it wrote one, else the previous one. *)
Lemma fold_show_lookup (term : string) (l : list TocCard) (d : gmap nat string) (k : nat) :
  fold_left (show_card term) l d !! k =
    match fold_left (show_card term) l ∅ !! k with
    | Some x => Some x
    | None => d !! k
    end.
Proof.
  induction l as [|a l IH] using rev_ind; [cbn [fold_left]; now rewrite lookup_empty|].
  rewrite !fold_show_snoc. unfold show_card.
  destruct (parentElement a) as [e|]; [|exact IH].
  destruct (decide (e = k)) as [->|Hne].
  - now rewrite !lookup_insert_eq.
  - rewrite !lookup_insert_ne by exact Hne. exact IH.
Qed.

(** The loop writes the display of the parents of the cards, and of no
    other element. *)
Lemma fold_show_dom (term : string) (l : list TocCard) (k : nat) :
  is_Some (fold_left (show_card term) l ∅ !! k) <-> In (Some k) (parentElement <$> l).
Proof.
  induction l as [|a l IH] using rev_ind.
  - cbn [fold_left]. rewrite lookup_empty. split; [intros [x Hx]; discriminate | intros []].
  - rewrite fold_show_snoc, fmap_app, in_app_iff. cbn [fmap list_fmap In]. unfold show_card.
    destruct (parentElement a) as [e|].
    + destruct (decide (e = k)) as [->|Hne].
      * rewrite lookup_insert_eq. split; [auto | eauto].
      * rewrite lookup_insert_ne by exact Hne. rewrite IH.
        split; [auto | intros [H|[H|[]]]; [exact H | congruence]].
    + rewrite IH. split; [auto | intros [H|[H|[]]]; [exact H | discriminate]].
Qed.

Lemma fold_show_absorb (t1 t2 : string) (l : list TocCard) (d : gmap nat string) :
  fold_left (show_card t2) l (fold_left (show_card t1) l d) = fold_left (show_card t2) l d.
Proof.
  apply map_eq. intros k.
  rewrite (fold_show_lookup t2 l (fold_left (show_card t1) l d)), (fold_show_lookup t2 l d).
  destruct (fold_left (show_card t2) l ∅ !! k) as [x|] eqn:E2; [reflexivity|].
  rewrite (fold_show_lookup t1 l d).
  destruct (fold_left (show_card t1) l ∅ !! k) as [y|] eqn:E1; [|reflexivity].
  assert (H : is_Some (fold_left (show_card t2) l ∅ !! k))
    by (apply fold_show_dom, (fold_show_dom t1); rewrite E1; eauto).
  rewrite E2 in H. destruct H as [z Hz]. discriminate Hz.
Qed.

(** X16. The result of [filter] depends on the query it is given and on
    the cards, not on what an earlier search has hidden or counted: a
    search after a search is the second search alone.  In particular
    [filter] is idempotent. *)
Theorem filter_last_wins (q1 q2 : string) (v : TocView) :
  filter q2 (filter q1 v) = filter q2 v.
Proof.
  unfold filter. cbn [view_cards style_display count_text].
  now rewrite fold_show_absorb.
Qed.

(** With one parent per card, the loop leaves on the parent of a card
    what that card asked for. *)
Lemma fold_show_own (term : string) (l : list TocCard) (d : gmap nat string)
    (a : TocCard) (e : nat) :
  NoDup (parentElement <$> l) -> In a l -> parentElement a = Some e ->
  fold_left (show_card term) l d !! e = Some (if card_matches term a then "" else "none").
Proof.
  intros Hnd. revert d. induction l as [|b l IH]; intros d Hin He; [destruct Hin|].
  cbn [fmap list_fmap] in Hnd. apply NoDup_cons in Hnd as [Hb Hnd].
  cbn [fold_left]. destruct Hin as [->|Hin].
  - rewrite fold_show_lookup.
    destruct (fold_left (show_card term) l ∅ !! e) as [x|] eqn:E.
    + exfalso. apply Hb. rewrite He. apply list_elem_of_In, (fold_show_dom term).
      rewrite E. eauto.
    + unfold show_card. rewrite He. apply lookup_insert_eq.
  - now apply IH.
Qed.

Lemma visible_after_filter (q : string) (v : TocView) :
  NoDup (parentElement <$> view_cards v) ->
  Forall (fun a => is_Some (parentElement a)) (view_cards v) ->
  visibleItems (filter q v) = List.filter (card_matches (filter_term q)) (view_cards v).
Proof.
  intros Hnd Hp. unfold visibleItems, filter. cbn [view_cards style_display].
  apply filter_ext_in. intros a Ha.
  rewrite Forall_forall in Hp. destruct (Hp a) as [e He]; [now apply list_elem_of_In|].
  rewrite He. unfold display_of.
  rewrite (fold_show_own _ _ _ a e Hnd Ha He).
  destruct (card_matches (filter_term q) a); reflexivity.
Qed.

(** X17. When every card has a parent of its own, the number that
    [filter] writes into the count is the number of cards the arrow keys
    go through afterwards. *)
Theorem filter_count_visible (q : string) (v : TocView) :
  NoDup (parentElement <$> view_cards v) ->
  Forall (fun a => is_Some (parentElement a)) (view_cards v) ->
  count_text (filter q v) = updateCount (length (visibleItems (filter q v))).
Proof.
  intros Hnd Hp. rewrite visible_after_filter by assumption. reflexivity.
Qed.

Lemma filter_count_visible_witness :
  let card t e := {| dataset_title := Some t; card_text := t; label_text := None;
                     dataset_chapter := None; parentElement := Some e |} in
  let v := {| view_cards := [card "Ash" 1%nat; card "Bone" 2%nat; card "Ashes" 3%nat];
              style_display := ∅; count_text := "3 chapters" |} in
  count_text (filter " ASH" v) = updateCount (length (visibleItems (filter " ASH" v))).
Proof.
  cbn zeta. apply filter_count_visible.
  - apply (bool_decide_unpack _). vm_compute. exact I.
  - repeat constructor; cbn [parentElement]; eauto.
Defined.

Example filter_ash :
  let card t e := {| dataset_title := Some t; card_text := t; label_text := None;
                     dataset_chapter := None; parentElement := Some e |} in
  let v := {| view_cards := [card "Ash" 1%nat; card "Bone" 2%nat; card "Ashes" 3%nat];
              style_display := ∅; count_text := "3 chapters" |} in
  count_text (filter " ASH" v) = "2 chapters" /\
  visibleItems (filter " ASH" v) = [card "Ash" 1%nat; card "Ashes" 3%nat] /\
  count_text (filter "bone " v) = "1 chapter".
Proof. vm_compute. repeat split; reflexivity. Qed.

Lemma skip_white_blank (q : string) :
  forallb Num.is_white (list_ascii_of_string q) = true -> Num.skip_white q = "".
Proof.
  induction q as [|c q IH]; [reflexivity|].
  cbn [list_ascii_of_string forallb]. intros [Hc Hq]%andb_true_iff.
  cbn [Num.skip_white]. rewrite Hc. now apply IH.
Qed.

Lemma filter_term_blank (q : string) :
  forallb Num.is_white (list_ascii_of_string q) = true -> filter_term q = "".
Proof.
  intros H. unfold filter_term, Str.trim. now rewrite skip_white_blank.
Qed.

Lemma fold_show_blank (l : list TocCard) (d : gmap nat string) (a : TocCard) (e : nat) :
  In a l -> parentElement a = Some e -> fold_left (show_card "") l d !! e = Some "".
Proof.
  induction l as [|b l IH] using rev_ind; intros Hin He; [destruct Hin|].
  rewrite fold_show_snoc. unfold show_card at 1.
  destruct (parentElement b) as [e'|] eqn:Eb.
  - destruct (decide (e' = e)) as [->|Hne]; [apply lookup_insert_eq|].
    rewrite lookup_insert_ne by exact Hne.
    apply in_app_iff in Hin as [Hin|[->|[]]]; [now apply IH | congruence].
  - apply in_app_iff in Hin as [Hin|[->|[]]]; [now apply IH | congruence].
Qed.

(** X18. A query that is empty or made of white space hides nothing:
    every card that has a parent is displayed, whatever an earlier search
    had hidden, and the count is the number of all cards. *)
Theorem filter_blank (q : string) (v : TocView) :
  forallb Num.is_white (list_ascii_of_string q) = true ->
  visibleItems (filter q v) =
    List.filter (fun a => bool_decide (is_Some (parentElement a))) (view_cards v) /\
  count_text (filter q v) = updateCount (length (view_cards v)).
Proof.
  intros Hq. unfold visibleItems, filter. rewrite (filter_term_blank q Hq).
  cbn [view_cards style_display count_text]. split.
  - apply filter_ext_in. intros a Ha. destruct (parentElement a) as [e|] eqn:He.
    + unfold display_of. rewrite (fold_show_blank _ _ a e Ha He). reflexivity.
    + reflexivity.
  - f_equal. f_equal. clear. induction (view_cards v) as [|a l IH]; [reflexivity|].
    cbn [List.filter card_matches length]. now rewrite IH.
Qed.

Lemma filter_blank_witness :
  let card t e := {| dataset_title := Some t; card_text := t; label_text := None;
                     dataset_chapter := None; parentElement := Some e |} in
  let v := {| view_cards := [card "Ash" 1%nat; card "Bone" 2%nat];
              style_display := {[ 1%nat := "none" ]}; count_text := "1 chapter" |} in
  visibleItems (filter "  " v) =
    List.filter (fun a => bool_decide (is_Some (parentElement a))) (view_cards v) /\
  count_text (filter "  " v) = updateCount (length (view_cards v)).
Proof. cbn zeta. apply filter_blank. reflexivity. Defined.



Example filter_shared_parent_hides :
  let card t := {| dataset_title := Some t; card_text := t; label_text := None;
                   dataset_chapter := None; parentElement := Some 0%nat |} in
  let v := {| view_cards := [card "Ash"; card "Bone"];
              style_display := ∅; count_text := "2 chapters" |} in
  visibleItems (filter "ash" v) = [] /\ count_text (filter "ash" v) = "1 chapter".
Proof. vm_compute. split; reflexivity. Qed.

(** ** The debounced search *)

Lemma search_inputs (vs : list string) (s : Search) :
  filter_runs (search_run (Input <$> vs) s) = filter_runs s /\
  view (search_run (Input <$> vs) s) = view s.
Proof.
  revert s. induction vs as [|y vs IH]; intros s; [split; reflexivity|].
  cbn [fmap list_fmap]. unfold search_run. cbn [fold_left].
  exact (IH (search_step (Input y) s)).
Qed.

(** X20. However many inputs arrive before the timeout elapses, [filter]
    runs once, with the value of the last input; the inputs themselves
    run nothing, and nothing is left to run afterwards. *)
Theorem debounce_last_value (vs : list string) (x : string) (s : Search) :
  filter_runs (search_run (Input <$> vs) s) = filter_runs s /\
  view (search_run (Input <$> vs) s) = view s /\
  search_run ((Input <$> vs) ++ [Input x; Timeout]) s =
    {| pending := None; filter_runs := S (filter_runs s); view := filter x (view s) |} /\
  search_run ((Input <$> vs) ++ [Input x; Timeout; Timeout]) s =
    search_run ((Input <$> vs) ++ [Input x; Timeout]) s.
Proof.
  destruct (search_inputs vs s) as [Hr Hv].
  assert (H : search_run ((Input <$> vs) ++ [Input x; Timeout]) s =
              {| pending := None; filter_runs := S (filter_runs s);
                 view := filter x (view s) |}).
  { unfold search_run in *. rewrite fold_left_app.
    cbn [fold_left search_step pending filter_runs view]. now rewrite Hr, Hv. }
  repeat split; [exact Hr | exact Hv | exact H |].
  change [Input x; Timeout; Timeout] with ([Input x; Timeout] ++ [Timeout])%list.
  rewrite app_assoc. unfold search_run at 1. rewrite fold_left_app.
  fold (search_run ((Input <$> vs) ++ [Input x; Timeout]) s). rewrite H. reflexivity.
Qed.

(** ** Arrow keys *)

Lemma focus_at_in_range (i : Z) (visible : list TocCard) (st : ArrowNav) :
  0 <= i < Z.of_nat (length visible) ->
  focus_at i visible st = Done {| focusedIndex := i; focus := visible !! Z.to_nat i |}.
Proof.
  intros Hi. unfold focus_at. destruct (Z.leb_spec 0 i) as [_|]; [|lia].
  destruct (lookup_lt_is_Some_2 visible (Z.to_nat i)) as [a Ha]; [lia|].
  now rewrite Ha.
Qed.

Lemma rem_down (i n : Z) : -1 <= i -> 0 < n -> 0 <= Z.rem (i + 1) n < n.
Proof. intros. apply Z.rem_bound_pos; lia. Qed.

Lemma rem_up (i n : Z) : -1 <= i -> 0 < n -> 0 <= Z.rem (i - 1 + n) n < n.
Proof.
  intros Hi Hn. destruct (Z.eq_dec n 1) as [->|].
  - rewrite Z.rem_1_r. lia.
  - apply Z.rem_bound_pos; lia.
Qed.

(** X21. The index the arrow keys keep starts at -1 and never falls
    below it; as long as it does not, no key makes the listener raise:
    either nothing changes, or the index moves to a position of the list
    of visible cards and the card at that position gets the focus. *)
Theorem arrow_key_focus (k : string) (activeTag : option string) (v : TocView) (st : ArrowNav) :
  -1 <= focusedIndex st ->
  exists st', arrow_key k activeTag v st = Done st' /\
    -1 <= focusedIndex st' /\
    (st' = st \/
     (0 <= focusedIndex st' < Z.of_nat (length (visibleItems v)) /\
      is_Some (focus st') /\
      focus st' = visibleItems v !! Z.to_nat (focusedIndex st'))).
Proof.
  intros Hi. unfold arrow_key.
  destruct (is_text_field activeTag); [exists st; auto|].
  destruct (visibleItems v) as [|a l] eqn:Ev; [exists st; auto|].
  set (n := Z.of_nat (length (a :: l))).
  assert (Hn : 0 < n) by (subst n; cbn [length]; lia).
  destruct (String.eqb k "ArrowDown" || String.eqb k "ArrowRight").
  - pose proof (rem_down _ n Hi Hn) as Hr.
    rewrite focus_at_in_range by exact Hr. eexists. split; [reflexivity|].
    cbn [focusedIndex focus]. split; [lia|]. right. split; [exact Hr|]. split; [|reflexivity].
    apply lookup_lt_is_Some_2. subst n. lia.
  - destruct (String.eqb k "ArrowUp" || String.eqb k "ArrowLeft"); [|exists st; auto].
    pose proof (rem_up _ n Hi Hn) as Hr.
    rewrite focus_at_in_range by exact Hr. eexists. split; [reflexivity|].
    cbn [focusedIndex focus]. split; [lia|]. right. split; [exact Hr|]. split; [|reflexivity].
    apply lookup_lt_is_Some_2. subst n. lia.
Qed.

Lemma arrow_key_focus_witness :
  let card t e := {| dataset_title := Some t; card_text := t; label_text := None;
                     dataset_chapter := None; parentElement := Some e |} in
  let v := {| view_cards := [card "Ash" 1%nat; card "Bone" 2%nat; card "Ashes" 3%nat];
              style_display := {[ 2%nat := "none" ]}; count_text := "2 chapters" |} in
  let st := {| focusedIndex := 2; focus := None |} in
  exists st', arrow_key "ArrowDown" (Some "BODY") v st = Done st' /\
    -1 <= focusedIndex st' /\
    (st' = st \/
     (0 <= focusedIndex st' < Z.of_nat (length (visibleItems v)) /\
      is_Some (focus st') /\
      focus st' = visibleItems v !! Z.to_nat (focusedIndex st'))).
Proof. cbn zeta. apply arrow_key_focus. cbn [focusedIndex]. lia. Defined.

(** X22. From the start, with [n] visible cards and the focus outside a
    text field: the first Down or Right arrow focuses the first card; the
    first Up or Left arrow focuses the card before the last one (the only
    card when [n] is 1), not the last one. *)
Theorem arrow_key_first (k : string) (activeTag : option string) (v : TocView) :
  is_text_field activeTag = false -> visibleItems v <> [] ->
  let st := {| focusedIndex := -1; focus := None |} in
  let n := Z.of_nat (length (visibleItems v)) in
  (k = "ArrowDown" \/ k = "ArrowRight" ->
   arrow_key k activeTag v st =
     Done {| focusedIndex := 0; focus := visibleItems v !! 0%nat |}) /\
  (k = "ArrowUp" \/ k = "ArrowLeft" ->
   arrow_key k activeTag v st =
     Done {| focusedIndex := Z.max 0 (n - 2);
             focus := visibleItems v !! Z.to_nat (n - 2) |}).
Proof.
  intros Ht Hv st n. unfold arrow_key. rewrite Ht.
  destruct (visibleItems v) as [|a l] eqn:Ev; [contradiction|].
  assert (Hn : 0 < n) by (subst n; cbn [length]; lia).
  fold n. cbn [focusedIndex st]. split.
  - intros Hk.
    assert (E : String.eqb k "ArrowDown" || String.eqb k "ArrowRight" = true)
      by (destruct Hk as [-> | ->]; reflexivity).
    rewrite E. change (-1 + 1) with 0. rewrite Z.rem_0_l by lia.
    apply focus_at_in_range. lia.
  - intros Hk.
    assert (E : String.eqb k "ArrowDown" || String.eqb k "ArrowRight" = false)
      by (destruct Hk as [-> | ->]; reflexivity).
    assert (E' : String.eqb k "ArrowUp" || String.eqb k "ArrowLeft" = true)
      by (destruct Hk as [-> | ->]; reflexivity).
    rewrite E, E'. destruct (Z.eq_dec n 1) as [En|En].
    + rewrite En. change (Z.rem (-1 - 1 + 1) 1) with 0. change (Z.max 0 (1 - 2)) with 0.
      rewrite focus_at_in_range by lia. reflexivity.
    + replace (-1 - 1 + n) with (n - 2) by lia.
      rewrite Z.rem_small by lia. rewrite Z.max_r by lia.
      apply focus_at_in_range. lia.
Qed.

Lemma arrow_key_first_witness :
  let card t e := {| dataset_title := Some t; card_text := t; label_text := None;
                     dataset_chapter := None; parentElement := Some e |} in
  let v := {| view_cards := [card "Ash" 1%nat; card "Bone" 2%nat; card "Ashes" 3%nat];
              style_display := ∅; count_text := "3 chapters" |} in
  let st := {| focusedIndex := -1; focus := None |} in
  let n := Z.of_nat (length (visibleItems v)) in
  ("ArrowUp" = "ArrowDown" \/ "ArrowUp" = "ArrowRight" ->
   arrow_key "ArrowUp" None v st =
     Done {| focusedIndex := 0; focus := visibleItems v !! 0%nat |}) /\
  ("ArrowUp" = "ArrowUp" \/ "ArrowUp" = "ArrowLeft" ->
   arrow_key "ArrowUp" None v st =
     Done {| focusedIndex := Z.max 0 (n - 2);
             focus := visibleItems v !! Z.to_nat (n - 2) |}).
Proof.
  cbn zeta. apply (arrow_key_first "ArrowUp" None).
  - reflexivity.
  - vm_compute. discriminate.
Defined.

Example arrow_up_first_of_three :
  let card t e := {| dataset_title := Some t; card_text := t; label_text := None;
                     dataset_chapter := None; parentElement := Some e |} in
  let v := {| view_cards := [card "Ash" 1%nat; card "Bone" 2%nat; card "Ashes" 3%nat];
              style_display := ∅; count_text := "3 chapters" |} in
  arrow_key "ArrowUp" None v {| focusedIndex := -1; focus := None |} =
    Done {| focusedIndex := 1; focus := Some (card "Bone" 2%nat) |}.
Proof. vm_compute. reflexivity. Qed.

(** X23. With the index on a visible card and the cards unchanged, a Down
    arrow followed by an Up arrow, and an Up arrow followed by a Down
    arrow, bring the focus back to that card, also across the ends of the
    list. *)
Theorem arrow_key_round_trip (activeTag : option string) (v : TocView) (st : ArrowNav) :
  is_text_field activeTag = false ->
  0 <= focusedIndex st < Z.of_nat (length (visibleItems v)) ->
  let back := Done {| focusedIndex := focusedIndex st;
                      focus := visibleItems v !! Z.to_nat (focusedIndex st) |} in
  (exists st1, arrow_key "ArrowDown" activeTag v st = Done st1 /\
               arrow_key "ArrowUp" activeTag v st1 = back) /\
  (exists st1, arrow_key "ArrowUp" activeTag v st = Done st1 /\
               arrow_key "ArrowDown" activeTag v st1 = back).
Proof.
  intros Ht Hi back. subst back. unfold arrow_key. rewrite Ht. revert Hi.
  destruct (visibleItems v) as [|a l] eqn:Ev; intros Hi; [cbn [length] in Hi; lia|].
  set (n := Z.of_nat (length (a :: l))) in *.
  change (String.eqb "ArrowDown" "ArrowDown" || String.eqb "ArrowDown" "ArrowRight") with true.
  change (String.eqb "ArrowUp" "ArrowDown" || String.eqb "ArrowUp" "ArrowRight") with false.
  change (String.eqb "ArrowUp" "ArrowUp" || String.eqb "ArrowUp" "ArrowLeft") with true.
  cbv iota.
  set (i := focusedIndex st) in *.
  assert (Hd : 0 <= Z.rem (i + 1) n < n) by (apply rem_down; lia).
  assert (Hu : 0 <= Z.rem (i - 1 + n) n < n) by (apply rem_up; lia).
  split; eexists; (split; [apply focus_at_in_range; assumption|]); cbn [focusedIndex].
  - assert (E : Z.rem (Z.rem (i + 1) n - 1 + n) n = i).
    { destruct (Z.eq_dec (i + 1) n) as [En|En].
      - rewrite En, Z.rem_same by lia. replace (0 - 1 + n) with i by lia.
        apply Z.rem_small. lia.
      - rewrite (Z.rem_small (i + 1)) by lia. replace (i + 1 - 1 + n) with (i + 1 * n) by lia.
        rewrite Z.rem_add by nia. apply Z.rem_small. lia. }
    rewrite E. apply focus_at_in_range. lia.
  - assert (E : Z.rem (Z.rem (i - 1 + n) n + 1) n = i).
    { destruct (Z.eq_dec i 0) as [E0|E0].
      - rewrite E0. replace (0 - 1 + n) with (n - 1) by lia.
        destruct (Z.eq_dec n 1) as [->|]; [reflexivity|].
        rewrite (Z.rem_small (n - 1)) by lia. replace (n - 1 + 1) with n by lia.
        apply Z.rem_same. lia.
      - replace (i - 1 + n) with (i - 1 + 1 * n) by lia.
        rewrite Z.rem_add by nia. rewrite (Z.rem_small (i - 1)) by lia.
        replace (i - 1 + 1) with i by lia. apply Z.rem_small. lia. }
    rewrite E. apply focus_at_in_range. lia.
Qed.

Lemma arrow_key_round_trip_witness :
  let card t e := {| dataset_title := Some t; card_text := t; label_text := None;
                     dataset_chapter := None; parentElement := Some e |} in
  let v := {| view_cards := [card "Ash" 1%nat; card "Bone" 2%nat; card "Ashes" 3%nat];
              style_display := ∅; count_text := "3 chapters" |} in
  let st := {| focusedIndex := 2; focus := None |} in
  let back := Done {| focusedIndex := focusedIndex st;
                      focus := visibleItems v !! Z.to_nat (focusedIndex st) |} in
  (exists st1, arrow_key "ArrowDown" (Some "BODY") v st = Done st1 /\
               arrow_key "ArrowUp" (Some "BODY") v st1 = back) /\
  (exists st1, arrow_key "ArrowUp" (Some "BODY") v st = Done st1 /\
               arrow_key "ArrowDown" (Some "BODY") v st1 = back).
Proof.
  cbn zeta. apply arrow_key_round_trip.
  - reflexivity.
  - vm_compute. split; [discriminate | reflexivity].
Defined.
